(** * RN_FastAPI: the authentication session lifecycle of the mobile client

    A shallow embedding of [screens/login.tsx] and [screens/overview.tsx]:
    the Zustand store [useAuthStore], the candidate list [getServerUrls],
    the probing loop [findWorkingServer], the login handler [handleLogin]
    and the logout handler [handleLogout].

    Conventions of the embedding:
    - a JavaScript string is its UTF-8 byte sequence (Rocq's [string]), so
      strings are well formed;
    - an awaited promise is the completion it settles to, and the network
      is a function from the request to what [fetch] settles to;
    - [console], [fetch], [Alert], store notifications and [navigation]
      calls are recorded, in program order, in a list of events;
    - what the platform decides ([Platform.OS], the [@env] values, its
      [URLSearchParams], the text of the engine's TypeError) is a field of
      the environment [Env]. *)

From Stdlib Require Import String Ascii List ZArith Bool Lia.
Import ListNotations.
Local Open Scope string_scope.
Set Warnings "-register-all".

(* ================================================================= *)
(** ** JavaScript values that the screens handle *)

Module Js.

(** A value produced by [JSON.parse].  A number is kept as the text that
    [Number.prototype.toString] prints for it, so [0] and [-0] are both
    ["0"]; the fields of an object are in the order of the body text. *)
Inductive json : Type :=
| JNull
| JBool (b : bool)
| JNum (text : string)
| JStr (s : string)
| JArr (items : list json)
| JObj (fields : list (string * json)).

(** What a property read or an argument can be: [undefined] or a JSON value *)
Inductive value : Type :=
| Undefined
| Val (j : json).

(** ToBoolean *)
Definition truthy (v : value) : bool :=
  match v with
  | Undefined => false
  | Val JNull => false
  | Val (JBool b) => b
  | Val (JNum text) => negb (text =? "0")
  | Val (JStr s) => negb (s =? "")
  | Val (JArr _) => true
  | Val (JObj _) => true
  end.

(** [a || b] *)
Definition or_else (a b : value) : value := if truthy a then a else b.

(** The own property [key] of a parsed object: [JSON.parse] keeps the last
    of several members with one name. *)
Fixpoint own_property (fields : list (string * json)) (key : string)
  : option json :=
  match fields with
  | [] => None
  | (k, v) :: rest =>
      match own_property rest key with
      | Some later => Some later
      | None => if k =? key then Some v else None
      end
  end.

(** ToString on a JSON value, [None] when the conversion throws.  An
    array prints as [join(",")], where [null] elements print as the empty
    string.  An object goes through ToPrimitive: with no own [toString]
    member it prints as [Object.prototype.toString] does; an own
    [toString] member shadows that method and is not callable, and
    [valueOf] gives back the object, so no primitive is found and a
    [TypeError] is thrown. *)
Fixpoint to_string (j : json) : option string :=
  match j with
  | JNull => Some "null"
  | JBool true => Some "true"
  | JBool false => Some "false"
  | JNum text => Some text
  | JStr s => Some s
  | JArr items =>
      (fix join (l : list json) : option string :=
         match l with
         | [] => Some ""
         | x :: rest =>
             match (match x with JNull => Some "" | _ => to_string x end) with
             | None => None
             | Some here =>
                 match rest with
                 | [] => Some here
                 | _ :: _ =>
                     match join rest with
                     | None => None
                     | Some tail => Some (here ++ "," ++ tail)
                     end
                 end
             end
         end) items
  | JObj fields =>
      match own_property fields "toString" with
      | Some _ => None
      | None => Some "[object Object]"
      end
  end.

Definition value_to_string (v : value) : option string :=
  match v with
  | Undefined => Some "undefined"
  | Val j => to_string j
  end.

(** A value that is not an array or an object *)
Definition primitive (v : value) : bool :=
  match v with
  | Val (JArr _) => false
  | Val (JObj _) => false
  | _ => true
  end.

(** What a [throw] carries: an [Error] instance (with its [name] and
    [message]) or any other value. *)
Inductive thrown : Type :=
| ErrorObj (name message : string)
| NonError (v : value).

(** How an evaluation ends *)
Inductive completion (A : Type) : Type :=
| Returned (a : A)
| Thrown (e : thrown).
Arguments Returned {A} a.
Arguments Thrown {A} e.

(** [new Error(message)]: the message is converted to a string, and a
    conversion that throws ends the construction with the engine's
    [TypeError], whose text is [not_primitive]. *)
Definition new_Error (not_primitive : string) (message : value)
  : completion thrown :=
  match value_to_string message with
  | Some text => Returned (ErrorObj "Error" text)
  | None => Thrown (ErrorObj "TypeError" not_primitive)
  end.

(** [data.key] for a key that no prototype defines ([detail],
    [access_token]): reading from [null] throws a [TypeError] whose message
    [null_read key] is the engine's; a boolean, number, string or array has
    no such property. *)
Definition get_prop (null_read : string -> string) (data : json)
    (key : string) : completion value :=
  match data with
  | JNull => Thrown (ErrorObj "TypeError" (null_read key))
  | JObj fields =>
      match own_property fields key with
      | Some v => Returned (Val v)
      | None => Returned Undefined
      end
  | _ => Returned Undefined
  end.

End Js.
Import Js.

(* ================================================================= *)
(** ** [URLSearchParams]: the application/x-www-form-urlencoded serializer *)

Module Form.

Definition hex_digit (n : nat) : ascii :=
  nth n (list_ascii_of_string "0123456789ABCDEF") "0"%char.

Definition percent_byte (c : ascii) : string :=
  let n := nat_of_ascii c in
  String "%" (String (hex_digit (n / 16)) (String (hex_digit (n mod 16)) "")).

Definition in_range (lo hi c : ascii) : bool :=
  (nat_of_ascii lo <=? nat_of_ascii c)%nat
  && (nat_of_ascii c <=? nat_of_ascii hi)%nat.

(** [URLSearchParams] is the platform's.  The URL standard's serializer
    (browsers, Node) writes a space as [+] and keeps [*-._]; React
    Native's own class applies [encodeURIComponent] to every name and
    value, which keeps [-_.!~*'()] and escapes the space. *)
Inductive serializer : Type := whatwg | uri_component.

Definition one_of (set : string) (c : ascii) : bool :=
  existsb (Ascii.eqb c) (list_ascii_of_string set).

Definition alphanumeric (c : ascii) : bool :=
  in_range "a" "z" c || in_range "A" "Z" c || in_range "0" "9" c.

(** The bytes the serializer leaves as they are *)
Definition unreserved (impl : serializer) (c : ascii) : bool :=
  alphanumeric c
  || match impl with
     | whatwg => one_of "*-._" c
     | uri_component => one_of "-_.!~*'()" c
     end.

Definition space_as_plus (impl : serializer) : bool :=
  match impl with whatwg => true | uri_component => false end.

Definition encode_byte (impl : serializer) (c : ascii) : string :=
  if space_as_plus impl && Ascii.eqb c " " then "+"
  else if unreserved impl c then String c ""
  else percent_byte c.

Fixpoint encode (impl : serializer) (s : string) : string :=
  match s with
  | EmptyString => ""
  | String c rest => encode_byte impl c ++ encode impl rest
  end.

(** [URLSearchParams.prototype.toString] on the list of appended pairs *)
Fixpoint serialize (impl : serializer) (params : list (string * string))
  : string :=
  match params with
  | [] => ""
  | (k, v) :: rest =>
      let here := encode impl k ++ "=" ++ encode impl v in
      match rest with
      | [] => here
      | _ :: _ => here ++ "&" ++ serialize impl rest
      end
  end.

(** The reading direction, as the server's form parser does it *)
Definition hex_value (c : ascii) : option nat :=
  if in_range "0" "9" c then Some (nat_of_ascii c - 48)
  else if in_range "A" "F" c then Some (nat_of_ascii c - 55)
  else if in_range "a" "f" c then Some (nat_of_ascii c - 87)
  else None.

(** Decodes one component, up to the first [stop] byte that is not
    escaped; returns the component and what follows the stop. *)
Fixpoint decode_until (stop : ascii) (s : string) : string * string :=
  match s with
  | EmptyString => ("", "")
  | String c rest =>
      if Ascii.eqb c stop then ("", rest)
      else if Ascii.eqb c "+" then
        let '(d, tail) := decode_until stop rest in (String " " d, tail)
      else if Ascii.eqb c "%" then
        match rest with
        | String h (String l rest') =>
            match hex_value h, hex_value l with
            | Some a, Some b =>
                let '(d, tail) := decode_until stop rest' in
                (String (ascii_of_nat (16 * a + b)) d, tail)
            | _, _ =>
                let '(d, tail) := decode_until stop rest in (String c d, tail)
            end
        | _ => let '(d, tail) := decode_until stop rest in (String c d, tail)
        end
      else
        let '(d, tail) := decode_until stop rest in (String c d, tail)
  end.

(** Reads a body of exactly two pairs back *)
Definition parse_two (body : string)
  : (string * string) * (string * string) :=
  let '(k1, r1) := decode_until "=" body in
  let '(v1, r2) := decode_until "&" r1 in
  let '(k2, r3) := decode_until "=" r2 in
  let '(v2, _) := decode_until "&" r3 in
  ((k1, v1), (k2, v2)).

End Form.

(* ================================================================= *)
(** ** The Zustand store [useAuthStore] *)

Record AuthState : Type := {
  token : value;              (* [string | null] by its declared type *)
  isAuthenticated : bool
}.

(** The object handed to Zustand's [set]: the fields it mentions *)
Record Partial : Type := {
  set_token : option value;
  set_isAuthenticated : option bool
}.

(** [set(partial)] merges the partial object into the state *)
Definition set (partial : Partial) (s : AuthState) : AuthState :=
  {| token := match set_token partial with
              | Some t => t
              | None => token s
              end;
     isAuthenticated := match set_isAuthenticated partial with
                        | Some b => b
                        | None => isAuthenticated s
                        end |}.

Definition initialState : AuthState :=
  {| token := Val JNull; isAuthenticated := false |}.

Definition login (t : value) : AuthState -> AuthState :=
  set {| set_token := Some t; set_isAuthenticated := Some true |}.

Definition logout : AuthState -> AuthState :=
  set {| set_token := Some (Val JNull); set_isAuthenticated := Some false |}.

(** A token that can be presented: a string that is not empty *)
Definition token_nonempty (s : AuthState) : bool :=
  match token s with
  | Val (JStr t) => negb (t =? "")
  | _ => false
  end.

(** The invariant of the session state *)
Definition invariant (s : AuthState) : Prop :=
  isAuthenticated s = true <-> token_nonempty s = true.

(** The two mutators, called as their type allows: [login] with a string *)
Inductive mutation : Type :=
| Login (t : string)
| Logout.

Definition apply_mutation (m : mutation) : AuthState -> AuthState :=
  match m with
  | Login t => login (Val (JStr t))
  | Logout => logout
  end.

Definition run_mutations (ms : list mutation) (s : AuthState) : AuthState :=
  fold_left (fun acc m => apply_mutation m acc) ms s.

Definition login_nonempty (m : mutation) : bool :=
  match m with
  | Login t => negb (t =? "")
  | Logout => true
  end.

(* ================================================================= *)
(** ** What surrounds the screens *)

Inductive platform : Type := android | ios | web | windows | macos.

Definition is_android (p : platform) : bool :=
  match p with android => true | _ => false end.

Record request : Type := {
  req_url : string;
  req_method : string;
  req_headers : list (string * string);
  req_body : option string
}.

Record response : Type := {
  status : Z;
  json_body : completion json      (* what [response.json()] settles to *)
}.

(** [response.ok] *)
Definition ok (r : response) : bool := (200 <=? status r)%Z && (status r <=? 299)%Z.

(** What [await fetch(...)] settles to *)
Inductive fetch_result : Type :=
| Rejected (e : thrown)
| Responded (r : response).

Record Env : Type := {
  os : platform;                              (* [Platform.OS] *)
  API_URL_EMULATOR : option string;           (* the three [@env] imports *)
  API_URL_LOCAL : option string;
  API_URL_DEVICE : option string;
  search_params : Form.serializer;            (* its [URLSearchParams] *)
  network : request -> fetch_result;
  null_read : string -> string;               (* the engine's TypeError text *)
  not_primitive : string                      (* and that of ToPrimitive *)
}.

Inductive logarg : Type :=
| LText (s : string)
| LUrls (urls : list string)
| LStatus (n : Z)
| LData (data : json)
| LError (e : thrown).

Inductive event : Type :=
| ConsoleLog (args : list logarg)
| ConsoleError (args : list logarg)
| Fetch (req : request)
| Alert (title message : string)
| Notify (s : AuthState)            (* the store tells its subscribers *)
| Navigate (screen : string).

(** The state the screens mutate *)
Record UI : Type := {
  store : AuthState;
  isLoading : bool;
  workingServerUrl : option string
}.

Definition mountState : UI :=
  {| store := initialState; isLoading := false; workingServerUrl := None |}.

(* ================================================================= *)
(** ** A monad for handlers: state, emitted events, and [throw] *)

Record outcome (A : Type) : Type := {
  final : UI;
  events : list event;
  result : completion A
}.
Arguments final {A} o.
Arguments events {A} o.
Arguments result {A} o.

Definition M (A : Type) : Type := UI -> outcome A.

Definition ret {A} (a : A) : M A :=
  fun u => {| final := u; events := []; result := Returned a |}.

Definition throw {A} (e : thrown) : M A :=
  fun u => {| final := u; events := []; result := Thrown e |}.

Definition bind {A B} (m : M A) (f : A -> M B) : M B :=
  fun u =>
    match m u with
    | Build_outcome _ u1 evs1 (Returned a) =>
        match f a u1 with
        | Build_outcome _ u2 evs2 r => Build_outcome B u2 (evs1 ++ evs2) r
        end
    | Build_outcome _ u1 evs1 (Thrown e) => Build_outcome B u1 evs1 (Thrown e)
    end.

Notation "x <- m ;; k" := (bind m (fun x => k))
  (at level 61, m at next level, right associativity).
Notation "m ;;; k" := (bind m (fun _ => k))
  (at level 61, right associativity).

Definition emit (e : event) : M unit :=
  fun u => {| final := u; events := [e]; result := Returned tt |}.

Definition modify (f : UI -> UI) : M unit :=
  fun u => {| final := f u; events := []; result := Returned tt |}.

Definition lift {A} (c : completion A) : M A :=
  match c with
  | Returned a => ret a
  | Thrown e => throw e
  end.

(** [try { body } catch (error) { handler }] *)
Definition try_catch {A} (body : M A) (handler : thrown -> M A) : M A :=
  fun u =>
    match body u with
    | Build_outcome _ u1 evs1 (Returned a) =>
        Build_outcome A u1 evs1 (Returned a)
    | Build_outcome _ u1 evs1 (Thrown e) =>
        match handler e u1 with
        | Build_outcome _ u2 evs2 r => Build_outcome A u2 (evs1 ++ evs2) r
        end
    end.

(** [try { body } finally { fin }]: [fin] runs either way, and the
    completion of [body] stands unless [fin] throws *)
Definition try_finally {A} (body : M A) (fin : M unit) : M A :=
  fun u =>
    match body u with
    | Build_outcome _ u1 evs1 r1 =>
        match fin u1 with
        | Build_outcome _ u2 evs2 (Returned _) =>
            Build_outcome A u2 (evs1 ++ evs2) r1
        | Build_outcome _ u2 evs2 (Thrown e) =>
            Build_outcome A u2 (evs1 ++ evs2) (Thrown e)
        end
    end.

Definition console_log (args : list logarg) : M unit := emit (ConsoleLog args).
Definition console_error (args : list logarg) : M unit := emit (ConsoleError args).
Definition alert (title message : string) : M unit := emit (Alert title message).
Definition navigate (screen : string) : M unit := emit (Navigate screen).

Definition setIsLoading (b : bool) : M unit :=
  modify (fun u => {| store := store u; isLoading := b;
                      workingServerUrl := workingServerUrl u |}).

Definition setWorkingServerUrl (url : string) : M unit :=
  modify (fun u => {| store := store u; isLoading := isLoading u;
                      workingServerUrl := Some url |}).

(** A call of one of the store's mutators: the new state is stored and
    the subscribers are told *)
Definition mutate_store (f : AuthState -> AuthState) : M unit :=
  fun u =>
    let s := f (store u) in
    {| final := {| store := s; isLoading := isLoading u;
                   workingServerUrl := workingServerUrl u |};
       events := [Notify s]; result := Returned tt |}.

(** [await fetch(url, init)] *)
Definition fetch (env : Env) (req : request) : M response :=
  emit (Fetch req) ;;;
  match network env req with
  | Rejected e => throw e
  | Responded r => ret r
  end.

(* ================================================================= *)
(** ** [LoginScreen] *)

(** [v || fallback] for an imported environment string *)
Definition or_default (v : option string) (fallback : string) : string :=
  match v with
  | Some s => if s =? "" then fallback else s
  | None => fallback
  end.

Definition mem (x : string) (l : list string) : bool :=
  existsb (String.eqb x) l.

(** [Set.prototype.add]: a value already present keeps its place *)
Definition set_add (s : list string) (x : string) : list string :=
  if mem x s then s else s ++ [x].

(** [[...new Set(urls)]]: the elements in insertion order *)
Definition new_Set (urls : list string) : list string :=
  fold_left set_add urls [].

(** The array [urls] after the [push] statements *)
Definition pushed_urls (env : Env) : list string :=
  (if is_android (os env)
   then [or_default (API_URL_EMULATOR env) "http://10.0.2.2:8000"]
   else [])
  ++ [or_default (API_URL_LOCAL env) "http://localhost:8000"]
  ++ [or_default (API_URL_DEVICE env) "http://127.0.0.1:8000"].

Definition getServerUrls (env : Env) : list string :=
  new_Set (pushed_urls env).

Definition ping_request (url : string) : request :=
  {| req_url := url ++ "/ping";
     req_method := "GET";
     req_headers := [("Accept", "application/json")];
     req_body := None |}.

(** The body of the [for] loop over the candidates.  [true] stands for the
    [return] inside the loop, [false] for falling out of its end. *)
Fixpoint probe_loop (env : Env) (serverUrls : list string) : M bool :=
  match serverUrls with
  | [] => ret false
  | url :: rest =>
      returned <-
        try_catch
          (console_log [LText ("Testing connection to " ++ url ++ "/ping...")] ;;;
           response <- fetch env (ping_request url) ;;
           if ok response then
             data <- lift (json_body response) ;;
             console_log [LText ("Server at " ++ url ++ " responded with:");
                          LData data] ;;;
             setWorkingServerUrl url ;;;
             console_log [LText ("Using server at " ++ url)] ;;;
             ret true
           else ret false)
          (fun error =>
             console_log [LText ("Server at " ++ url ++ " is not reachable:");
                          LError error] ;;;
             ret false) ;;
      if returned then ret true else probe_loop env rest
  end.

(** The probing of an arbitrary candidate list *)
Definition resolve (env : Env) (serverUrls : list string) : M unit :=
  console_log [LText "Trying to find a working server from:"; LUrls serverUrls] ;;;
  returned <- probe_loop env serverUrls ;;
  if returned then ret tt
  else console_log [LText "Could not find a working server"].

Definition findWorkingServer (env : Env) : M unit :=
  resolve env (getServerUrls env).

Definition formString (env : Env) (username password : string) : string :=
  Form.serialize (search_params env)
    [("username", username); ("password", password)].

Definition token_request (env : Env) (url username password : string)
  : request :=
  {| req_url := url ++ "/token";
     req_method := "POST";
     req_headers := [("Content-Type", "application/x-www-form-urlencoded");
                     ("Accept", "application/json")];
     req_body := Some (formString env username password) |}.

Definition missing_credentials : event :=
  Alert "Error" "Please enter both username and password".

Definition no_server : event :=
  Alert "Server Connection Error"
    "Cannot connect to the server. Please check your network connection and try again.".

(** [error instanceof Error ? error.message : 'Something went wrong'] *)
Definition error_text (error : thrown) : string :=
  match error with
  | ErrorObj _ message => message
  | NonError _ => "Something went wrong"
  end.

(** The [try] block of [handleLogin] *)
Definition login_exchange (env : Env) (username password url : string)
  : M unit :=
  console_log [LText ("Attempting to login at: " ++ url ++ "/token")] ;;;
  console_log [LText "Form data being sent:";
               LText (formString env username password)] ;;;
  response <- fetch env (token_request env url username password) ;;
  console_log [LText "Response status:"; LStatus (status response)] ;;;
  data <- lift (json_body response) ;;
  console_log [LText "Response data:"; LData data] ;;;
  (if negb (ok response) then
     detail <- lift (get_prop (null_read env) data "detail") ;;
     error <- lift (new_Error (not_primitive env)
                      (or_else detail (Val (JStr "Login failed")))) ;;
     throw error
   else ret tt) ;;;
  console_log [LText "Login successful:"; LData data] ;;;
  access_token <- lift (get_prop (null_read env) data "access_token") ;;
  mutate_store (login access_token) ;;;
  navigate "Overview".

(** [handleLogin], with the [username], [password] and [workingServerUrl]
    of the render it was created in *)
Definition handleLogin (env : Env) (username password : string)
    (serverUrl : option string) : M unit :=
  if (username =? "") || (password =? "") then emit missing_credentials
  else
    match serverUrl with
    | None => emit no_server
    | Some "" => emit no_server
    | Some url =>
        setIsLoading true ;;;
        try_finally
          (try_catch
             (login_exchange env username password url)
             (fun error =>
                console_error [LText "Login error:"; LError error] ;;;
                alert "Login Failed" (error_text error)))
          (setIsLoading false)
    end.

(* ================================================================= *)
(** ** [OverviewScreen] *)

Definition handleLogout : M unit :=
  mutate_store logout ;;;
  navigate "Login".

(* ================================================================= *)
(** ** Vocabulary of the properties *)

(** A candidate is reachable when its probe is answered with a success
    status and a body that decodes *)
Definition reachable (env : Env) (url : string) : bool :=
  match network env (ping_request url) with
  | Responded r =>
      ok r && match json_body r with Returned _ => true | Thrown _ => false end
  | Rejected _ => false
  end.

(** The URLs that were fetched, in order *)
Fixpoint fetched (evs : list event) : list string :=
  match evs with
  | [] => []
  | Fetch req :: rest => req_url req :: fetched rest
  | _ :: rest => fetched rest
  end.

(** The alerts that were shown, in order *)
Fixpoint alerts (evs : list event) : list (string * string) :=
  match evs with
  | [] => []
  | Alert title message :: rest => (title, message) :: alerts rest
  | _ :: rest => alerts rest
  end.

(** The store states that were published, in order *)
Fixpoint notified (evs : list event) : list AuthState :=
  match evs with
  | [] => []
  | Notify s :: rest => s :: notified rest
  | _ :: rest => notified rest
  end.

(** The screens navigated to, in order *)
Fixpoint navigated (evs : list event) : list string :=
  match evs with
  | [] => []
  | Navigate screen :: rest => screen :: navigated rest
  | _ :: rest => navigated rest
  end.

(** Deduplication that keeps the first occurrence of every entry, written
    without a set: the specification [getServerUrls] is compared with *)
Fixpoint dedup_first (l : list string) : list string :=
  match l with
  | [] => []
  | x :: rest => x :: filter (fun y => negb (String.eqb y x)) (dedup_first rest)
  end.

(** The three sources of the candidate list, each with its default *)
Definition three_sources (env : Env) : list string :=
  [or_default (API_URL_EMULATOR env) "http://10.0.2.2:8000";
   or_default (API_URL_LOCAL env) "http://localhost:8000";
   or_default (API_URL_DEVICE env) "http://127.0.0.1:8000"].

(** The ways a login attempt fails: no response, a body that does not
    decode, a status that is not a success *)
Definition login_failed (fr : fetch_result) : bool :=
  match fr with
  | Rejected _ => true
  | Responded r =>
      match json_body r with
      | Thrown _ => true
      | Returned _ => negb (ok r)
      end
  end.

(** The separators of a form body *)
Definition separator (c : ascii) : Prop := c = "&"%char \/ c = "="%char.

(** The detail string a response supplies: the non-empty string member
    [detail] of a body that decodes to an object *)
Definition supplied_detail (fr : fetch_result) : option string :=
  match fr with
  | Responded r =>
      match json_body r with
      | Returned (JObj fields) =>
          match own_property fields "detail" with
          | Some (JStr d) => if d =? "" then None else Some d
          | _ => None
          end
      | _ => None
      end
  | Rejected _ => None
  end.

(** [!workingServerUrl] *)
Definition absent (serverUrl : option string) : bool :=
  match serverUrl with
  | None => true
  | Some url => url =? ""
  end.

(** The parsed body is an object with a member named [key] *)
Definition has_field (data : json) (key : string) : bool :=
  match data with
  | JObj fields =>
      match own_property fields key with
      | Some _ => true
      | None => false
      end
  | _ => false
  end.

Definition is_null (data : json) : bool :=
  match data with
  | JNull => true
  | _ => false
  end.

(** Environments to evaluate the screens in *)
Definition hermes_null_read (key : string) : string :=
  "Cannot read property '" ++ key ++ "' of null".

Definition env_with (p : platform) (emulator local device : option string)
    (net : request -> fetch_result) : Env :=
  {| os := p; API_URL_EMULATOR := emulator; API_URL_LOCAL := local;
     API_URL_DEVICE := device; search_params := Form.uri_component;
     network := net; null_read := hermes_null_read;
     not_primitive := "Cannot convert object to primitive value" |}.

Definition timeout_error : thrown := ErrorObj "TypeError" "Network request failed".

Definition answer (code : Z) (body : json) : fetch_result :=
  Responded {| status := code; json_body := Returned body |}.

(** A server at [http://b] and at [http://c]; nothing at [http://a] *)
Definition net_b_and_c (req : request) : fetch_result :=
  if (req_url req =? "http://b/ping") || (req_url req =? "http://c/ping")
  then answer 200 (JObj [("status", JStr "ok")])
  else Rejected timeout_error.

(** No server anywhere *)
Definition net_down (req : request) : fetch_result := Rejected timeout_error.

(** A token endpoint that answers every request with one response *)
Definition net_const (r : fetch_result) (req : request) : fetch_result := r.

Definition env_b_and_c : Env := env_with ios None None None net_b_and_c.

Definition env_down : Env := env_with android None None None net_down.

Definition env_answering (code : Z) (body : json) : Env :=
  env_with ios None None None (net_const (answer code body)).

(* ================================================================= *)
(** ** The rest of [LoginScreen]: what is rendered and pressed *)

(** [setShowPassword(!showPassword)] *)
Definition togglePasswordVisibility (showPassword : bool) : bool :=
  negb showPassword.

(** [disabled={isLoading || !workingServerUrl}] *)
Definition loginDisabled (u : UI) : bool :=
  isLoading u || absent (workingServerUrl u).

Inductive button_content : Type :=
| ActivityIndicator
| Label (text : string).

(** The parts of the rendered screen that depend on state *)
Record LoginView : Type := {
  searching_banner : bool;       (* "Searching for server connection..." *)
  secureTextEntry : bool;        (* of the password input *)
  login_disabled : bool;
  login_content : button_content
}.

Definition render (u : UI) (showPassword : bool) : LoginView :=
  {| searching_banner := absent (workingServerUrl u);
     secureTextEntry := negb showPassword;
     login_disabled := loginDisabled u;
     login_content :=
       if isLoading u then ActivityIndicator
       else Label (if absent (workingServerUrl u)
                   then "Waiting for server..." else "Login") |}.

(** A press on the login button: a disabled [TouchableOpacity] does not
    call [onPress]; an enabled one calls [handleLogin], which closes over
    the [workingServerUrl] that was rendered *)
Definition pressLogin (env : Env) (username password : string) : M unit :=
  fun u =>
    if loginDisabled u then ret tt u
    else handleLogin env username password (workingServerUrl u) u.

(* ================================================================= *)
(** ** [RootStack], the navigator *)

Record Navigator : Type := {
  initialRouteName : string;
  screens : list string
}.

(** [RootStack] reads [isAuthenticated] from the store and builds the
    navigator *)
Definition RootStack (s : AuthState) : Navigator :=
  let isAuthenticated := isAuthenticated s in
  {| initialRouteName := "Login";
     screens := ["Login"; "Overview"; "Details"] |}.

(* ================================================================= *)
(** ** More vocabulary *)

(** The requests that were sent, in order *)
Fixpoint requests (evs : list event) : list request :=
  match evs with
  | [] => []
  | Fetch req :: rest => req :: requests rest
  | _ :: rest => requests rest
  end.

(** An event that is only a console line or a request *)
Definition log_or_fetch (e : event) : bool :=
  match e with
  | ConsoleLog _ => true
  | Fetch _ => true
  | _ => false
  end.

(** The value handed to the store's [login], when the exchange gets that
    far: the response decodes, its status is a success, and the body can
    be asked for [access_token] *)
Definition granted (env : Env) (fr : fetch_result) : option value :=
  match fr with
  | Rejected _ => None
  | Responded r =>
      match json_body r with
      | Thrown _ => None
      | Returned data =>
          if ok r then
            match get_prop (null_read env) data "access_token" with
            | Returned v => Some v
            | Thrown _ => None
            end
          else None
      end
  end.

Fixpoint string_forall (p : ascii -> bool) (s : string) : bool :=
  match s with
  | EmptyString => true
  | String c rest => p c && string_forall p rest
  end.

(** What a serialized name or value is made of: letters, digits, the
    marks the serializers keep, [%] and [+] *)
Definition body_byte (c : ascii) : bool :=
  Form.alphanumeric c || Form.one_of "-_.!~*'()%+" c.

(** What can occur in a serialized name or value: one of those bytes,
    and none of the separators, the space or a byte outside ASCII *)
Definition plain (c : ascii) : bool :=
  body_byte c
  && negb (Ascii.eqb c "&") && negb (Ascii.eqb c "=")
  && negb (Ascii.eqb c " ") && (nat_of_ascii c <? 128)%nat.

(** No entry occurs twice *)
Fixpoint distinct (l : list string) : bool :=
  match l with
  | [] => true
  | x :: rest => negb (mem x rest) && distinct rest
  end.

(** A server at [http://b], configured as the local address *)
Definition env_local_b : Env :=
  env_with ios None (Some "http://b") None net_b_and_c.

(* ================================================================= *)
(** * The session store *)

Section Store.

Lemma initial_invariant : invariant initialState.
Proof. unfold invariant; simpl; split; discriminate. Qed.

Lemma mutation_keeps_invariant (m : mutation) (s : AuthState) :
  login_nonempty m = true -> invariant (apply_mutation m s).
Proof.
  destruct m as [t|]; unfold invariant, token_nonempty; simpl; intros Hm.
  - rewrite Hm; split; reflexivity.
  - split; discriminate.
Qed.

Lemma run_keeps_invariant (ms : list mutation) :
  forall s, forallb login_nonempty ms = true ->
            invariant s -> invariant (run_mutations ms s).
Proof.
  induction ms as [|m ms IH]; intros s Hms Hs; simpl in *.
  - exact Hs.
  - apply andb_true_iff in Hms as [Hm Hms].
    apply IH; [exact Hms | now apply mutation_keeps_invariant].
Qed.

Lemma forallb_firstn {A} (f : A -> bool) (l : list A) :
  forall n, forallb f l = true -> forallb f (firstn n l) = true.
Proof.
  induction l as [|x l IH]; intros [|n] H; simpl in *; try reflexivity.
  apply andb_true_iff in H as [Hx Hl].
  rewrite Hx; simpl; now apply IH.
Qed.

(** The flag alone follows the presence of a token, whatever is stored *)
Lemma flag_follows_presence (ms : list mutation) :
  forall s, (isAuthenticated s = true <-> token s <> Val JNull) ->
    let s' := run_mutations ms s in
    isAuthenticated s' = true <-> token s' <> Val JNull.
Proof.
  induction ms as [|m ms IH]; intros s Hs; simpl in *.
  - exact Hs.
  - apply IH. destruct m; simpl; split; intros H;
      try reflexivity; try discriminate; try (now elim H).
Qed.

End Store.

(** C1, as stated, fails: [login("")] is a step of such a sequence, and
    after it [isAuthenticated] is true while the token is the empty string. *)
Lemma empty_login_breaks_invariant :
  ~ (forall (ms : list mutation) (n : nat),
       let s := run_mutations (firstn n ms) initialState in
       isAuthenticated s = true <-> token_nonempty s = true).
Proof.
  intros H. specialize (H [Login ""] 1%nat). simpl in H.
  destruct H as [H _]. discriminate (H eq_refl).
Qed.

(** C1, amended: for every sequence of [login(t)] with a non-empty string
    [t] and [logout()] from the initial state, after every step
    [isAuthenticated] is true if and only if the token is a non-empty
    string. *)
Theorem invariant_after_every_step (ms : list mutation) (n : nat)
    (Hms : forallb login_nonempty ms = true) :
  let s := run_mutations (firstn n ms) initialState in
  isAuthenticated s = true <-> token_nonempty s = true.
Proof.
  apply run_keeps_invariant.
  - now apply forallb_firstn.
  - exact initial_invariant.
Qed.

Lemma invariant_after_every_step_witness :
  forallb login_nonempty [Login "abc123"; Logout; Login "def456"] = true
  /\ (let s := run_mutations
                 (firstn 2 [Login "abc123"; Logout; Login "def456"])
                 initialState in
      isAuthenticated s = true <-> token_nonempty s = true).
Proof.
  split; [reflexivity |].
  apply (invariant_after_every_step
           [Login "abc123"; Logout; Login "def456"] 2); reflexivity.
Defined.

(** C5: for every non-empty token [t] and every prior state, the state
    read after [login(t)] is exactly [{token: t, isAuthenticated: true}];
    nothing of the prior state is left, and that state is what the
    subscribers of the store are told. *)
Theorem login_overwrites (t : string) (prior : AuthState) (u : UI)
    (Ht : (t =? "") = false) :
  let s := {| token := Val (JStr t); isAuthenticated := true |} in
  login (Val (JStr t)) prior = s
  /\ store (final (mutate_store (login (Val (JStr t))) u)) = s
  /\ notified (events (mutate_store (login (Val (JStr t))) u)) = [s]
  /\ token_nonempty (login (Val (JStr t)) prior) = true.
Proof.
  cbv zeta. repeat split. unfold token_nonempty; simpl. now rewrite Ht.
Qed.

Lemma login_overwrites_witness :
  let prior := {| token := Val (JStr "old"); isAuthenticated := true |} in
  let u := {| store := prior; isLoading := false;
              workingServerUrl := Some "http://host:8000" |} in
  let s := {| token := Val (JStr "abc123"); isAuthenticated := true |} in
  ("abc123" =? "") = false
  /\ login (Val (JStr "abc123")) prior = s
  /\ store (final (mutate_store (login (Val (JStr "abc123"))) u)) = s
  /\ notified (events (mutate_store (login (Val (JStr "abc123"))) u)) = [s]
  /\ token_nonempty (login (Val (JStr "abc123")) prior) = true.
Proof.
  cbv zeta. split; [reflexivity |].
  apply (login_overwrites "abc123"); reflexivity.
Defined.

(** C6: for every prior state, [logout()] yields exactly the initial state
    [{token: null, isAuthenticated: false}]; calling it again, or when
    already logged out, changes nothing; [handleLogout] leaves the store in
    that state and navigates to the login screen. *)
Theorem logout_resets (prior : AuthState) (u : UI) :
  logout prior = initialState
  /\ logout (logout prior) = logout prior
  /\ logout initialState = initialState
  /\ store (final (handleLogout u)) = initialState
  /\ result (handleLogout u) = Returned tt
  /\ navigated (events (handleLogout u)) = ["Login"].
Proof. repeat split. Qed.

(* ================================================================= *)
(** * The candidate list *)

Section Candidates.

Lemma mem_In (x : string) (l : list string) : mem x l = true <-> In x l.
Proof.
  unfold mem. rewrite existsb_exists. split.
  - intros [y [Hy Heq]]. apply String.eqb_eq in Heq. now subst.
  - intros H. exists x. split; [exact H | apply String.eqb_refl].
Qed.

Lemma mem_app (x : string) (l1 l2 : list string) :
  mem x (l1 ++ l2)%list = mem x l1 || mem x l2.
Proof. unfold mem. apply existsb_app. Qed.

Lemma filter_twice {A} (f g : A -> bool) (l : list A) :
  filter f (filter g l) = filter (fun x => g x && f x) l.
Proof.
  induction l as [|x l IH]; simpl; [reflexivity |].
  destruct (g x); simpl; [destruct (f x) |]; now rewrite IH.
Qed.

(** Adding to a set that holds [acc] already: what is new is appended, in
    the order of first occurrence *)
Lemma fold_set_add (l : list string) :
  forall acc,
    fold_left set_add l acc
    = (acc ++ filter (fun y => negb (mem y acc)) (dedup_first l))%list.
Proof.
  induction l as [|x l IH]; intros acc; simpl.
  - now rewrite app_nil_r.
  - rewrite IH. unfold set_add.
    destruct (mem x acc) eqn:Hx; simpl.
    + f_equal. rewrite filter_twice. apply filter_ext. intros y.
      destruct (String.eqb_spec y x) as [->|Hne]; simpl.
      * now rewrite Hx.
      * reflexivity.
    + rewrite <- app_assoc; simpl. do 2 f_equal.
      rewrite filter_twice. apply filter_ext. intros y.
      rewrite mem_app; simpl. rewrite orb_false_r, negb_orb.
      apply andb_comm.
Qed.

Lemma new_Set_dedup_first (l : list string) : new_Set l = dedup_first l.
Proof.
  unfold new_Set. rewrite fold_set_add. simpl.
  induction (dedup_first l) as [|x d IH]; simpl; [reflexivity | now f_equal].
Qed.

Lemma dedup_first_In (x : string) (l : list string) :
  In x (dedup_first l) <-> In x l.
Proof.
  induction l as [|y l IH]; simpl; [tauto |].
  rewrite filter_In, IH. split.
  - intros [H | [H _]]; auto.
  - intros [H | H]; [now left |].
    destruct (String.eqb_spec x y) as [->|Hne]; [now left |].
    right. split; [exact H | reflexivity].
Qed.

Lemma dedup_first_NoDup (l : list string) : NoDup (dedup_first l).
Proof.
  induction l as [|y l IH]; simpl; constructor.
  - rewrite filter_In. intros [_ H]. now rewrite String.eqb_refl in H.
  - now apply NoDup_filter.
Qed.

End Candidates.

(** C8, as stated, fails: off Android the emulator address is not a
    source at all, neither its variable nor its default.  On iOS with
    nothing set the list is not the deduplicated three sources. *)
Lemma emulator_source_only_on_android :
  ~ (forall env : Env,
       getServerUrls env = dedup_first (three_sources env)
       /\ NoDup (getServerUrls env)
       /\ getServerUrls env <> []).
Proof.
  intros H.
  destruct (H (env_with ios None None None net_down)) as [Heq _].
  vm_compute in Heq. discriminate Heq.
Qed.

(** C8, amended: for every environment and platform the candidate list is
    built, in priority order, from the emulator address (on Android only),
    the local-development address and the physical-device address, each
    falling back to its default when unset; it is deduplicated keeping the
    first occurrence, has no duplicate entries, holds exactly the sources
    used, and is never empty. *)
Theorem candidate_list (env : Env) :
  let sources := if is_android (os env)
                 then three_sources env
                 else tl (three_sources env) in
  getServerUrls env = dedup_first sources
  /\ NoDup (getServerUrls env)
  /\ (forall url, In url (getServerUrls env) <-> In url sources)
  /\ getServerUrls env <> []
  /\ hd_error (getServerUrls env) = hd_error sources.
Proof.
  assert (Hp : pushed_urls env
               = if is_android (os env) then three_sources env
                 else tl (three_sources env)).
  { unfold pushed_urls, three_sources. now destruct (is_android (os env)). }
  cbv zeta. rewrite <- Hp. unfold getServerUrls.
  rewrite new_Set_dedup_first.
  repeat split.
  - apply dedup_first_NoDup.
  - now apply dedup_first_In.
  - now apply dedup_first_In.
  - unfold pushed_urls. destruct (is_android (os env)); discriminate.
  - unfold pushed_urls. now destruct (is_android (os env)).
Qed.

(* ================================================================= *)
(** * The endpoint resolver *)

Section Resolver.

Variable env : Env.

Lemma fetched_app (a b : list event) :
  fetched (a ++ b) = (fetched a ++ fetched b)%list.
Proof.
  induction a as [|e a IH]; simpl; [reflexivity |].
  destruct e; simpl; now rewrite IH.
Qed.

(** One turn of the loop on a candidate that does not answer: the error,
    if any, is caught, and the loop goes on with the rest *)
Lemma probe_step_unreachable (url : string) (rest : list string) (u : UI) :
  reachable env url = false ->
  final (probe_loop env (url :: rest) u) = final (probe_loop env rest u)
  /\ result (probe_loop env (url :: rest) u) = result (probe_loop env rest u)
  /\ fetched (events (probe_loop env (url :: rest) u))
     = (url ++ "/ping") :: fetched (events (probe_loop env rest u)).
Proof.
  unfold reachable. intros H. simpl.
  unfold bind, try_catch, fetch, bind, console_log, emit, lift, ret, throw.
  destruct (network env (ping_request url)) as [e | r].
  - destruct (probe_loop env rest u) as [f evs res]; simpl.
    repeat split; reflexivity.
  - destruct (ok r); simpl in H.
    + destruct (json_body r) as [data | e]; [discriminate H |].
      destruct (probe_loop env rest u) as [f evs res]; simpl.
      repeat split; reflexivity.
    + destruct (probe_loop env rest u) as [f evs res]; simpl.
      repeat split; reflexivity.
Qed.

(** One turn of the loop on a candidate that answers: it is stored and the
    function returns *)
Lemma probe_step_reachable (url : string) (rest : list string) (u : UI) :
  reachable env url = true ->
  final (probe_loop env (url :: rest) u)
  = {| store := store u; isLoading := isLoading u;
       workingServerUrl := Some url |}
  /\ result (probe_loop env (url :: rest) u) = Returned true
  /\ fetched (events (probe_loop env (url :: rest) u)) = [url ++ "/ping"].
Proof.
  unfold reachable. intros H. simpl.
  unfold bind, try_catch, fetch, bind, console_log, emit, lift, ret, throw,
    setWorkingServerUrl, modify.
  destruct (network env (ping_request url)) as [e | r]; [discriminate H |].
  destruct (ok r); [| discriminate H]. simpl in H.
  destruct (json_body r) as [data | e]; [| discriminate H].
  simpl. repeat split; reflexivity.
Qed.

Lemma probe_loop_none (urls : list string) (u : UI) :
  existsb (reachable env) urls = false ->
  final (probe_loop env urls u) = u
  /\ result (probe_loop env urls u) = Returned false
  /\ fetched (events (probe_loop env urls u))
     = map (fun url => url ++ "/ping") urls.
Proof.
  induction urls as [|url rest IH]; intros H.
  - repeat split; reflexivity.
  - simpl in H. apply orb_false_iff in H as [Hurl Hrest].
    destruct (IH Hrest) as (Hf & Hr & He).
    destruct (probe_step_unreachable url rest u Hurl) as (Hf' & Hr' & He').
    rewrite Hf', Hr', He', Hf, Hr, He. repeat split; reflexivity.
Qed.

Lemma probe_loop_first (before : list string) (url : string)
    (after : list string) (u : UI) :
  existsb (reachable env) before = false ->
  reachable env url = true ->
  final (probe_loop env (before ++ url :: after) u)
  = {| store := store u; isLoading := isLoading u;
       workingServerUrl := Some url |}
  /\ result (probe_loop env (before ++ url :: after) u) = Returned true
  /\ fetched (events (probe_loop env (before ++ url :: after) u))
     = map (fun c => c ++ "/ping") (before ++ [url]).
Proof.
  induction before as [|b before IH]; intros Hb Hurl.
  - apply (probe_step_reachable url after u Hurl).
  - simpl in Hb. apply orb_false_iff in Hb as [Hhead Hrest].
    destruct (IH Hrest Hurl) as (Hf & Hr & He).
    destruct (probe_step_unreachable b (before ++ url :: after) u Hhead)
      as (Hf' & Hr' & He').
    simpl. simpl in Hf', Hr', He'.
    rewrite Hf', Hr', He', Hf, Hr, He. repeat split; reflexivity.
Qed.

(** A list with a reachable entry splits at the first one *)
Lemma first_reachable_split (urls : list string) :
  existsb (reachable env) urls = true ->
  exists before url after,
    urls = (before ++ url :: after)%list
    /\ existsb (reachable env) before = false
    /\ reachable env url = true.
Proof.
  induction urls as [|c rest IH]; simpl; intros H; [discriminate H |].
  destruct (reachable env c) eqn:Hc.
  - exists [], c, rest. repeat split; assumption.
  - destruct (IH H) as (before & url & after & -> & Hb & Hu).
    exists (c :: before), url, after. simpl. rewrite Hc.
    repeat split; assumption.
Qed.

(** The loop ends by [return] or by running out of candidates; no
    candidate makes it throw *)
Lemma probe_loop_returns (urls : list string) (u : UI) :
  exists b, result (probe_loop env urls u) = Returned b.
Proof.
  destruct (existsb (reachable env) urls) eqn:H.
  - destruct (first_reachable_split urls H) as (b & c & a & -> & Hb & Hc).
    exists true. now apply probe_loop_first.
  - exists false. now apply probe_loop_none.
Qed.

End Resolver.

(** C2: for every candidate list with a reachable entry, the resolver
    stores the first reachable entry of the list, the probes it sent are
    those of the entries up to and including that one, in list order, and
    no entry after it is probed, reachable or not. *)
Theorem resolver_first_reachable (env : Env) (urls : list string) (u : UI)
    (H : existsb (reachable env) urls = true) :
  exists before url after,
    urls = (before ++ url :: after)%list
    /\ existsb (reachable env) before = false
    /\ reachable env url = true
    /\ workingServerUrl (final (resolve env urls u)) = Some url
    /\ fetched (events (resolve env urls u))
       = map (fun c => c ++ "/ping") (before ++ [url])
    /\ result (resolve env urls u) = Returned tt.
Proof.
  destruct (first_reachable_split env urls H)
    as (before & url & after & -> & Hb & Hurl).
  exists before, url, after.
  destruct (probe_loop_first env before url after u Hb Hurl)
    as (Hf & Hr & He).
  unfold resolve, bind, console_log, emit, ret.
  destruct (probe_loop env (before ++ url :: after) u) as [f evs res].
  simpl in Hf, Hr, He. subst f res. simpl. rewrite app_nil_r, He.
  repeat split; assumption.
Qed.

Lemma resolver_first_reachable_witness :
  existsb (reachable env_b_and_c) ["http://a"; "http://b"; "http://c"] = true
  /\ exists before url after,
       ["http://a"; "http://b"; "http://c"] = (before ++ url :: after)%list
       /\ existsb (reachable env_b_and_c) before = false
       /\ reachable env_b_and_c url = true
       /\ workingServerUrl
            (final (resolve env_b_and_c ["http://a"; "http://b"; "http://c"]
                      mountState)) = Some url
       /\ fetched
            (events (resolve env_b_and_c ["http://a"; "http://b"; "http://c"]
                       mountState))
          = map (fun c => c ++ "/ping") (before ++ [url])
       /\ result (resolve env_b_and_c ["http://a"; "http://b"; "http://c"]
                    mountState) = Returned tt.
Proof.
  split; [reflexivity |].
  apply (resolver_first_reachable env_b_and_c
           ["http://a"; "http://b"; "http://c"] mountState).
  reflexivity.
Defined.

(** C7: for every candidate list in which no entry is reachable (each
    probe is rejected, or answered with a non-success status, or with a
    body that does not decode), the resolver completes normally, having
    probed every candidate once in order, and stores no endpoint: the
    state is as before, so a resolution from the mount state ends with the
    endpoint absent. *)
Theorem resolver_absent_when_none_reachable (env : Env) (urls : list string)
    (u : UI) (H : existsb (reachable env) urls = false) :
  result (resolve env urls u) = Returned tt
  /\ final (resolve env urls u) = u
  /\ fetched (events (resolve env urls u)) = map (fun c => c ++ "/ping") urls
  /\ workingServerUrl (final (resolve env urls mountState)) = None.
Proof.
  assert (Hall : forall v,
             result (resolve env urls v) = Returned tt
             /\ final (resolve env urls v) = v
             /\ fetched (events (resolve env urls v))
                = map (fun c => c ++ "/ping") urls).
  { intros v. destruct (probe_loop_none env urls v H) as (Hf & Hr & He).
    unfold resolve, bind, console_log, emit, ret.
    destruct (probe_loop env urls v) as [f evs res].
    simpl in Hf, Hr, He. subst f res. simpl.
    rewrite fetched_app, He; simpl.
    rewrite app_nil_r. repeat split; reflexivity. }
  destruct (Hall u) as (Hr & Hf & He).
  destruct (Hall mountState) as (_ & Hm & _).
  rewrite Hm. repeat split; assumption.
Qed.

Lemma resolver_absent_when_none_reachable_witness :
  existsb (reachable env_down) (getServerUrls env_down) = false
  /\ result (resolve env_down (getServerUrls env_down) mountState)
     = Returned tt
  /\ final (resolve env_down (getServerUrls env_down) mountState)
     = mountState
  /\ fetched (events (resolve env_down (getServerUrls env_down) mountState))
     = map (fun c => c ++ "/ping") (getServerUrls env_down)
  /\ workingServerUrl
       (final (resolve env_down (getServerUrls env_down) mountState)) = None.
Proof.
  split; [reflexivity |].
  apply (resolver_absent_when_none_reachable env_down
           (getServerUrls env_down) mountState).
  reflexivity.
Defined.

(* ================================================================= *)
(** * The login handler *)

Ltac run_handler :=
  unfold login_exchange, try_finally, try_catch, bind, fetch, bind,
    console_log, console_error, alert, navigate, emit, setIsLoading, modify,
    mutate_store, lift, ret, throw.

Section Login.

Variable env : Env.
Variables username password url : string.
Hypothesis Husername : (username =? "") = false.
Hypothesis Hpassword : (password =? "") = false.
Hypothesis Hurl : (url =? "") = false.

(** Past its two guards the handler is the guarded exchange *)
Lemma handleLogin_attempt :
  handleLogin env username password (Some url)
  = (setIsLoading true ;;;
     try_finally
       (try_catch
          (login_exchange env username password url)
          (fun error =>
             console_error [LText "Login error:"; LError error] ;;;
             alert "Login Failed" (error_text error)))
       (setIsLoading false)).
Proof.
  unfold handleLogin. rewrite Husername, Hpassword. simpl.
  destruct url; [discriminate Hurl | reflexivity].
Qed.

(** What the exchange does up to the response *)
Lemma login_exchange_start (u : UI) :
  exists after,
    events (login_exchange env username password url u)
    = ConsoleLog [LText ("Attempting to login at: " ++ url ++ "/token")]
      :: ConsoleLog [LText "Form data being sent:";
                     LText (formString env username password)]
      :: Fetch (token_request env url username password)
      :: after.
Proof.
  run_handler.
  destruct (network env (token_request env url username password)) as [e | r];
    [eexists; reflexivity |].
  destruct (json_body r) as [data | e]; [| eexists; reflexivity].
  destruct (ok r); simpl.
  - destruct (get_prop (null_read env) data "access_token");
      eexists; reflexivity.
  - destruct (get_prop (null_read env) data "detail") as [d | e];
      [unfold new_Error; destruct (value_to_string _) |];
      eexists; reflexivity.
Qed.

End Login.

(** C3, as stated, fails: the fall-back to "Login failed" exists only for
    a response that was decoded.  When no response is obtained the message
    shown is that of the rejection ("Network request failed"), which is
    neither a detail string of the server nor "Login failed". *)
Lemma transport_failure_message :
  ~ (forall (env : Env) (username password url : string) (u : UI),
       (username =? "") = false ->
       (password =? "") = false ->
       (url =? "") = false ->
       login_failed (network env (token_request env url username password))
       = true ->
       let o := handleLogin env username password (Some url) u in
       store (final o) = store u
       /\ exists title,
            alerts (events o)
            = [(title,
                match supplied_detail
                        (network env
                           (token_request env url username password)) with
                | Some detail => detail
                | None => "Login failed"
                end)]).
Proof.
  intros H.
  destruct (H env_down "johndoe" "password123" "http://host:8000" mountState
              eq_refl eq_refl eq_refl eq_refl) as (_ & title & Halerts).
  vm_compute in Halerts. discriminate Halerts.
Qed.

(** C3, amended: every failed login attempt (no response, a body that
    does not decode, or a non-success status) leaves the store untouched,
    navigates nowhere and shows exactly one alert, titled "Login Failed".
    For a non-success status with a decoded body whose [detail] can be
    read, the message is "Login failed" when the detail is missing or
    falsy, and the detail itself when it is a non-empty string (or the
    text of a truthy number or boolean); for a body that does not decode
    or a request that got no response it is the message of the error that
    was thrown, or "Something went wrong" when what was thrown is not an
    [Error].  In particular a [401] with the detail "Incorrect username or
    password" leaves the initial state and shows that detail. *)
Theorem failed_login_leaves_session (env : Env)
    (username password url : string) (u : UI)
    (Husername : (username =? "") = false)
    (Hpassword : (password =? "") = false)
    (Hurl : (url =? "") = false)
    (Hfail : login_failed (network env (token_request env url username password))
             = true) :
  let o := handleLogin env username password (Some url) u in
  let fr := network env (token_request env url username password) in
  store (final o) = store u
  /\ notified (events o) = []
  /\ navigated (events o) = []
  /\ result o = Returned tt
  /\ exists message,
       alerts (events o) = [("Login Failed", message)]
       /\ (forall r fields d,
             fr = Responded r ->
             json_body r = Returned (JObj fields) ->
             own_property fields "detail" = Some (JStr d) ->
             (d =? "") = false ->
             message = d)
       /\ (forall r data d,
             fr = Responded r ->
             json_body r = Returned data ->
             get_prop (null_read env) data "detail" = Returned d ->
             truthy d = false ->
             message = "Login failed")
       /\ (forall r data d,
             fr = Responded r ->
             json_body r = Returned data ->
             get_prop (null_read env) data "detail" = Returned d ->
             truthy d = true ->
             primitive d = true ->
             value_to_string d = Some message)
       /\ (forall r e,
             fr = Responded r -> json_body r = Thrown e ->
             message = error_text e)
       /\ (forall e, fr = Rejected e -> message = error_text e).
Proof.
  cbv zeta. rewrite (handleLogin_attempt env username password url)
    by assumption.
  run_handler. simpl.
  destruct (network env (token_request env url username password))
    as [e | r]; simpl in *.
  - repeat split. exists (error_text e). repeat split; try discriminate.
    intros e' [= <-]. reflexivity.
  - destruct (json_body r) as [data | e] eqn:Hbody; simpl in *.
    + apply negb_true_iff in Hfail. rewrite Hfail. simpl.
      destruct (get_prop (null_read env) data "detail") as [d | e] eqn:Hd;
        simpl.
      * unfold new_Error.
        destruct (value_to_string (or_else d (Val (JStr "Login failed"))))
          as [text |] eqn:Htext; simpl.
        -- repeat split. exists text. repeat split; try discriminate.
           ++ intros r' fields s [= <-] Hb Hf Hs.
              rewrite Hbody in Hb. injection Hb as ->.
              simpl in Hd. rewrite Hf in Hd. injection Hd as <-.
              unfold or_else in Htext; simpl in Htext.
              rewrite Hs in Htext. simpl in Htext. now injection Htext.
           ++ intros r' data' d' [= <-] Hb Hg Hfalsy.
              rewrite Hbody in Hb. injection Hb as <-.
              rewrite Hd in Hg. injection Hg as <-.
              unfold or_else in Htext. rewrite Hfalsy in Htext.
              simpl in Htext. now injection Htext.
           ++ intros r' data' d' [= <-] Hb Hg Htruthy _.
              rewrite Hbody in Hb. injection Hb as <-.
              rewrite Hd in Hg. injection Hg as <-.
              unfold or_else in Htext. now rewrite Htruthy in Htext.
           ++ intros r' e' [= <-] Hb. rewrite Hbody in Hb. discriminate Hb.
        -- repeat split. exists (not_primitive env).
           repeat split; try discriminate.
           ++ intros r' fields s [= <-] Hb Hf Hs.
              rewrite Hbody in Hb. injection Hb as ->.
              simpl in Hd. rewrite Hf in Hd. injection Hd as <-.
              unfold or_else in Htext; simpl in Htext.
              rewrite Hs in Htext. discriminate Htext.
           ++ intros r' data' d' [= <-] Hb Hg Hfalsy.
              rewrite Hbody in Hb. injection Hb as <-.
              rewrite Hd in Hg. injection Hg as <-.
              unfold or_else in Htext. rewrite Hfalsy in Htext.
              discriminate Htext.
           ++ intros r' data' d' [= <-] Hb Hg Htruthy Hprim.
              rewrite Hbody in Hb. injection Hb as <-.
              rewrite Hd in Hg. injection Hg as <-.
              unfold or_else in Htext. rewrite Htruthy in Htext.
              destruct d as [| []]; simpl in *;
                try discriminate Hprim; try discriminate Htext;
                destruct b; discriminate Htext.
           ++ intros r' e' [= <-] Hb. rewrite Hbody in Hb. discriminate Hb.
      * repeat split. exists (error_text e).
        repeat split; try discriminate.
        -- intros r' fields s [= <-] Hb Hf Hs.
           rewrite Hbody in Hb. injection Hb as ->.
           simpl in Hd. destruct (own_property fields "detail");
             discriminate Hd.
        -- intros r' data' d' [= <-] Hb Hg.
           rewrite Hbody in Hb. injection Hb as <-.
           rewrite Hd in Hg. discriminate Hg.
        -- intros r' data' d' [= <-] Hb Hg.
           rewrite Hbody in Hb. injection Hb as <-.
           rewrite Hd in Hg. discriminate Hg.
        -- intros r' e' [= <-] Hb. rewrite Hbody in Hb. discriminate Hb.
    + repeat split. exists (error_text e).
      repeat split; try discriminate.
      * intros r' fields s [= <-] Hb. rewrite Hbody in Hb. discriminate Hb.
      * intros r' data' d' [= <-] Hb. rewrite Hbody in Hb. discriminate Hb.
      * intros r' data' d' [= <-] Hb. rewrite Hbody in Hb. discriminate Hb.
      * intros r' e' [= <-] Hb. rewrite Hbody in Hb. now injection Hb as <-.
Qed.

Lemma failed_login_leaves_session_witness :
  let env := env_answering 401
               (JObj [("detail", JStr "Incorrect username or password")]) in
  let o := handleLogin env "johndoe" "password123" (Some "http://host:8000")
             mountState in
  login_failed
    (network env (token_request env "http://host:8000" "johndoe" "password123"))
  = true
  /\ store (final o) = initialState
  /\ alerts (events o)
     = [("Login Failed", "Incorrect username or password")].
Proof.
  cbv zeta. split; [reflexivity |].
  destruct (failed_login_leaves_session
              (env_answering 401
                 (JObj [("detail", JStr "Incorrect username or password")]))
              "johndoe" "password123" "http://host:8000" mountState
              eq_refl eq_refl eq_refl eq_refl)
    as (Hstore & _ & _ & _ & message & Halert & Hdetail & _).
  split; [exact Hstore |].
  rewrite Halert. do 2 f_equal.
  apply (Hdetail _ _ _ eq_refl eq_refl eq_refl eq_refl).
Defined.

(** C4, as stated, fails: an empty username and an empty password are
    rejected with one and the same alert, so the three violated
    preconditions do not have three distinct rejections. *)
Lemma credential_rejections_coincide :
  ~ (forall (env : Env) (username password url : string) (u : UI),
       (username =? "") = false ->
       (password =? "") = false ->
       (url =? "") = false ->
       let no_username :=
         alerts (events (handleLogin env "" password (Some url) u)) in
       let no_password :=
         alerts (events (handleLogin env username "" (Some url) u)) in
       let no_endpoint :=
         alerts (events (handleLogin env username password None u)) in
       no_username <> no_password
       /\ no_username <> no_endpoint
       /\ no_password <> no_endpoint).
Proof.
  intros H.
  destruct (H env_down "johndoe" "password123" "http://host:8000" mountState
              eq_refl eq_refl eq_refl) as (Hdiff & _).
  apply Hdiff. reflexivity.
Qed.

(** C4, amended: whenever the username is empty, or the password is
    empty, or no endpoint is resolved, the handler sends no request,
    leaves the whole state (store included) as it was and does exactly one
    thing: it shows an alert.  Missing credentials, whichever of the two
    is empty, show "Please enter both username and password"; a missing
    endpoint with both credentials present shows the "Server Connection
    Error" alert, which is a different one. *)
Theorem rejected_before_any_request (env : Env) (username password : string)
    (serverUrl : option string) (u : UI)
    (H : (username =? "") || (password =? "") || absent serverUrl = true) :
  let o := handleLogin env username password serverUrl u in
  fetched (events o) = []
  /\ final o = u
  /\ notified (events o) = []
  /\ result o = Returned tt
  /\ events o = [if (username =? "") || (password =? "")
                 then missing_credentials else no_server]
  /\ missing_credentials <> no_server.
Proof.
  cbv zeta. unfold handleLogin.
  destruct ((username =? "") || (password =? "")) eqn:Hcred; simpl in H.
  - repeat split; discriminate.
  - destruct serverUrl as [[|c url] |]; simpl in H; try discriminate H;
      repeat split; discriminate.
Qed.

Lemma rejected_before_any_request_witness :
  ("johndoe" =? "") || ("" =? "") || absent (Some "http://host:8000") = true
  /\ (let o := handleLogin env_b_and_c "johndoe" ""
                 (Some "http://host:8000") mountState in
      fetched (events o) = []
      /\ final o = mountState
      /\ notified (events o) = []
      /\ result o = Returned tt
      /\ events o = [if ("johndoe" =? "") || ("" =? "")
                     then missing_credentials else no_server]
      /\ missing_credentials <> no_server).
Proof.
  split; [reflexivity |].
  apply (rejected_before_any_request env_b_and_c "johndoe" ""
           (Some "http://host:8000") mountState).
  reflexivity.
Defined.

(** C10, as stated, fails: a success response whose body is [null] has no
    [access_token] field, yet reading the field from it throws, and the
    attempt ends in the "Login Failed" alert with the store untouched. *)
Lemma null_body_is_an_error :
  ~ (forall (env : Env) (username password url : string) (u : UI)
            (r : response) (data : json),
       (username =? "") = false ->
       (password =? "") = false ->
       (url =? "") = false ->
       network env (token_request env url username password) = Responded r ->
       ok r = true ->
       json_body r = Returned data ->
       has_field data "access_token" = false ->
       let o := handleLogin env username password (Some url) u in
       alerts (events o) = []
       /\ store (final o) = {| token := Undefined; isAuthenticated := true |}
       /\ navigated (events o) = ["Overview"]).
Proof.
  intros H.
  destruct (H (env_answering 200 JNull) "johndoe" "password123"
              "http://host:8000" mountState
              {| status := 200; json_body := Returned JNull |} JNull
              eq_refl eq_refl eq_refl eq_refl eq_refl eq_refl eq_refl)
    as (Halerts & _).
  vm_compute in Halerts. discriminate Halerts.
Qed.

(** C10, amended: for every success response whose decoded body is not
    [null] and has no [access_token] field, the handler shows no alert: it
    calls the store's [login] with [undefined], which leaves
    [isAuthenticated] true with no usable token, and after that navigates
    to the Overview screen. *)
Theorem login_without_token (env : Env) (username password url : string)
    (u : UI) (r : response) (data : json)
    (Husername : (username =? "") = false)
    (Hpassword : (password =? "") = false)
    (Hurl : (url =? "") = false)
    (Hnet : network env (token_request env url username password) = Responded r)
    (Hok : ok r = true)
    (Hbody : json_body r = Returned data)
    (Hnull : is_null data = false)
    (Hfield : has_field data "access_token" = false) :
  let o := handleLogin env username password (Some url) u in
  let s := {| token := Undefined; isAuthenticated := true |} in
  alerts (events o) = []
  /\ notified (events o) = [s]
  /\ store (final o) = s
  /\ token_nonempty (store (final o)) = false
  /\ navigated (events o) = ["Overview"]
  /\ result o = Returned tt
  /\ exists before,
       events o = (before ++ [Notify (login Undefined (store u));
                              Navigate "Overview"])%list.
Proof.
  cbv zeta. rewrite (handleLogin_attempt env username password url)
    by assumption.
  run_handler. simpl. rewrite Hnet. simpl. rewrite Hbody, Hok. simpl.
  assert (Hget : get_prop (null_read env) data "access_token"
                 = Returned Undefined).
  { destruct data; simpl in *; try reflexivity; try discriminate.
    destruct (own_property fields "access_token"); [discriminate | reflexivity]. }
  rewrite Hget. simpl. repeat split.
  eexists [_; _; _; _; _; _]. reflexivity.
Qed.

Lemma login_without_token_witness :
  let env := env_answering 200 (JObj [("token_type", JStr "bearer")]) in
  let o := handleLogin env "johndoe" "password123" (Some "http://host:8000")
             mountState in
  let s := {| token := Undefined; isAuthenticated := true |} in
  alerts (events o) = []
  /\ notified (events o) = [s]
  /\ store (final o) = s
  /\ token_nonempty (store (final o)) = false
  /\ navigated (events o) = ["Overview"]
  /\ result o = Returned tt
  /\ exists before,
       events o = (before ++ [Notify (login Undefined (store mountState));
                              Navigate "Overview"])%list.
Proof.
  apply (login_without_token
           (env_answering 200 (JObj [("token_type", JStr "bearer")]))
           "johndoe" "password123" "http://host:8000" mountState
           {| status := 200;
              json_body := Returned (JObj [("token_type", JStr "bearer")]) |}
           (JObj [("token_type", JStr "bearer")]));
    reflexivity.
Defined.

(* ================================================================= *)
(** * The form body *)

Section FormBody.

Lemma append_assoc (a b c : string) : (a ++ b) ++ c = a ++ (b ++ c).
Proof. induction a as [|x a IH]; simpl; [reflexivity | now rewrite IH]. Qed.

Lemma append_nil_r (a : string) : a ++ "" = a.
Proof. induction a as [|x a IH]; simpl; [reflexivity | now rewrite IH]. Qed.

(** Reading one encoded byte gives the byte back, whatever follows *)
Lemma decode_encode_byte (impl : Form.serializer) (stop c : ascii)
    (rest : string) :
  separator stop ->
  Form.decode_until stop (Form.encode_byte impl c ++ rest)
  = let '(d, tail) := Form.decode_until stop rest in (String c d, tail).
Proof.
  intros [-> | ->]; destruct impl;
    destruct c as [[] [] [] [] [] [] [] []]; reflexivity.
Qed.

Lemma decode_encode (impl : Form.serializer) (stop : ascii)
    (s tail : string) :
  separator stop ->
  Form.decode_until stop (Form.encode impl s ++ tail)
  = let '(d, rest) := Form.decode_until stop tail in (s ++ d, rest).
Proof.
  intros Hstop. induction s as [|c s IH]; simpl.
  - now destruct (Form.decode_until stop tail).
  - rewrite append_assoc, decode_encode_byte, IH by assumption.
    now destruct (Form.decode_until stop tail).
Qed.

(** The body that is sent and logged *)
Lemma formString_text (env : Env) (username password : string) :
  formString env username password
  = "username=" ++ Form.encode (search_params env) username
    ++ "&password=" ++ Form.encode (search_params env) password.
Proof.
  unfold formString. now destruct (search_params env).
Qed.

(** Both credentials can be read back from the body *)
Lemma formString_readable (env : Env) (username password : string) :
  Form.parse_two (formString env username password)
  = (("username", username), ("password", password)).
Proof.
  rewrite formString_text. unfold Form.parse_two.
  change (Form.decode_until "=" ("username=" ++ Form.encode (search_params env) username
            ++ "&password=" ++ Form.encode (search_params env) password))
    with ("username",
          Form.encode (search_params env) username ++ "&password=" ++ Form.encode (search_params env) password).
  cbv iota beta.
  rewrite (decode_encode _ "&" username) by (left; reflexivity).
  change (Form.decode_until "&" ("&password=" ++ Form.encode (search_params env) password))
    with ("", "password=" ++ Form.encode (search_params env) password).
  cbv iota beta.
  change (Form.decode_until "=" ("password=" ++ Form.encode (search_params env) password))
    with ("password", Form.encode (search_params env) password).
  cbv iota beta.
  rewrite <- (append_nil_r (Form.encode (search_params env) password)) at 1.
  rewrite (decode_encode _ "&" password "") by (left; reflexivity).
  simpl. now rewrite !append_nil_r.
Qed.

End FormBody.

(** C9: for every attempt with a non-empty username, a non-empty password
    and a resolved endpoint, the handler writes the form body to the
    console and only then issues the request with that same body; the body
    is [username=...&password=...] with both values URL-encoded, and both
    credentials can be read back from it. *)
Theorem credentials_logged_before_request (env : Env)
    (username password url : string) (u : UI)
    (Husername : (username =? "") = false)
    (Hpassword : (password =? "") = false)
    (Hurl : (url =? "") = false) :
  let o := handleLogin env username password (Some url) u in
  let body := formString env username password in
  (exists after,
     events o
     = ConsoleLog [LText ("Attempting to login at: " ++ url ++ "/token")]
       :: ConsoleLog [LText "Form data being sent:"; LText body]
       :: Fetch (token_request env url username password)
       :: after)
  /\ req_body (token_request env url username password) = Some body
  /\ body = "username=" ++ Form.encode (search_params env) username
            ++ "&password=" ++ Form.encode (search_params env) password
  /\ Form.parse_two body = (("username", username), ("password", password)).
Proof.
  cbv zeta. split; [| split; [| split]].
  - rewrite (handleLogin_attempt env username password url) by assumption.
    unfold bind, try_finally, try_catch, setIsLoading, modify,
      console_error, alert, emit.
    match goal with
    | |- context [login_exchange env username password url ?v] =>
        destruct (login_exchange_start env username password url v)
          as [after Hstart];
        destruct (login_exchange env username password url v)
          as [f evs [[] | e]]
    end; simpl in Hstart; subst evs; simpl; eexists; reflexivity.
  - reflexivity.
  - apply formString_text.
  - apply formString_readable.
Qed.

Lemma credentials_logged_before_request_witness :
  let env := env_answering 200 (JObj [("access_token", JStr "abc123")]) in
  let o := handleLogin env "john doe" "p&ss=word" (Some "http://host:8000")
             mountState in
  ("john doe" =? "") = false
  /\ nth_error (events o) 1
     = Some (ConsoleLog [LText "Form data being sent:";
                         LText "username=john%20doe&password=p%26ss%3Dword"])
  /\ fetched (events o) = ["http://host:8000/token"]
  /\ Form.parse_two "username=john%20doe&password=p%26ss%3Dword"
     = (("username", "john doe"), ("password", "p&ss=word")).
Proof.
  cbv zeta. split; [reflexivity |].
  destruct (credentials_logged_before_request
              (env_answering 200 (JObj [("access_token", JStr "abc123")]))
              "john doe" "p&ss=word" "http://host:8000" mountState
              eq_refl eq_refl eq_refl)
    as ((after & Hevents) & _ & _ & Hread).
  split; [| split].
  - rewrite Hevents. reflexivity.
  - reflexivity.
  - exact Hread.
Defined.

(* ================================================================= *)
(** * The scenarios of the specification, evaluated *)

(** A [200 {"access_token":"abc123"}] answer logs the user in *)
Example successful_login :
  let o := handleLogin (env_answering 200 (JObj [("access_token", JStr "abc123")]))
             "johndoe" "password123" (Some "http://host:8000") mountState in
  store (final o) = {| token := Val (JStr "abc123"); isAuthenticated := true |}
  /\ alerts (events o) = []
  /\ navigated (events o) = ["Overview"]
  /\ isLoading (final o) = false.
Proof. repeat split. Qed.

(** A pass over [["http://a"; "http://b"]] where [a] times out and [b]
    answers the ping resolves to [b] *)
Example resolution_pass :
  workingServerUrl
    (final (resolve env_b_and_c ["http://a"; "http://b"] mountState))
  = Some "http://b".
Proof. reflexivity. Qed.

(** The same body under the URL standard's serializer *)
Example whatwg_body :
  Form.serialize Form.whatwg
    [("username", "john doe"); ("password", "p&ss=word")]
  = "username=john+doe&password=p%26ss%3Dword".
Proof. reflexivity. Qed.

(** A transport failure shows the message of the rejection *)
Example rejected_fetch_alert :
  alerts (events (handleLogin env_down "johndoe" "password123"
                    (Some "http://host:8000") mountState))
  = [("Login Failed", "Network request failed")].
Proof. reflexivity. Qed.

(** A [422] whose [detail] is a list of objects, as FastAPI's validation
    errors are, is shown through [ToString] *)
Example validation_error_detail :
  alerts (events (handleLogin
                    (env_answering 422 (JObj [("detail", JArr [JObj []])]))
                    "johndoe" "password123" (Some "http://host:8000")
                    mountState))
  = [("Login Failed", "[object Object]")].
Proof. reflexivity. Qed.

(* ================================================================= *)
(** * Further properties of the login handler *)

Section Outcome.

Variable env : Env.

Lemma requests_app (a b : list event) :
  requests (a ++ b) = (requests a ++ requests b)%list.
Proof.
  induction a as [|e a IH]; simpl; [reflexivity |].
  destruct e; simpl; now rewrite IH.
Qed.

(** Every way through the handler once both guards are passed *)
Lemma handleLogin_outcome (username password url : string) (u : UI) :
  (username =? "") = false ->
  (password =? "") = false ->
  (url =? "") = false ->
  let o := handleLogin env username password (Some url) u in
  result o = Returned tt
  /\ requests (events o) = [token_request env url username password]
  /\ match granted env
             (network env (token_request env url username password)) with
     | Some v =>
         final o = {| store := login v (store u); isLoading := false;
                      workingServerUrl := workingServerUrl u |}
         /\ alerts (events o) = []
         /\ notified (events o) = [login v (store u)]
         /\ navigated (events o) = ["Overview"]
     | None =>
         final o = {| store := store u; isLoading := false;
                      workingServerUrl := workingServerUrl u |}
         /\ (exists message, alerts (events o) = [("Login Failed", message)])
         /\ notified (events o) = []
         /\ navigated (events o) = []
     end.
Proof.
  intros Hu Hp Hurl. cbv zeta.
  rewrite (handleLogin_attempt env username password url) by assumption.
  run_handler. unfold granted. simpl.
  destruct (network env (token_request env url username password))
    as [e | r]; simpl.
  - repeat split. eexists; reflexivity.
  - destruct (json_body r) as [data | e]; simpl.
    + destruct (ok r); simpl.
      * destruct (get_prop (null_read env) data "access_token")
          as [v | e]; simpl; repeat split. eexists; reflexivity.
      * destruct (get_prop (null_read env) data "detail") as [d | e];
          [unfold new_Error; destruct (value_to_string _) |];
          simpl; repeat split; eexists; reflexivity.
    + repeat split. eexists; reflexivity.
Qed.

(** What happens when a guard stops the handler *)
Lemma handleLogin_guarded (username password : string)
    (serverUrl : option string) (u : UI) :
  (username =? "") || (password =? "") || absent serverUrl = true ->
  let o := handleLogin env username password serverUrl u in
  final o = u /\ result o = Returned tt
  /\ (events o = [missing_credentials] \/ events o = [no_server]).
Proof.
  intros H. cbv zeta. unfold handleLogin.
  destruct ((username =? "") || (password =? "")); simpl in H.
  - repeat split. now left.
  - destruct serverUrl as [[|c url] |]; simpl in H; try discriminate H;
      repeat split; now right.
Qed.

Lemma absent_Some (url : string) : absent (Some url) = (url =? "").
Proof. reflexivity. Qed.

End Outcome.

(** X1: when the token endpoint answers with a success status and a body
    that is an object with an [access_token] member, the handler stores
    that member as the token with [isAuthenticated] true, tells the
    subscribers once, shows no alert, navigates to Overview, and ends with
    [isLoading] false and the endpoint as it was. *)
Theorem login_stores_token (env : Env) (username password url : string)
    (u : UI) (r : response) (fields : list (string * json)) (tok : json)
    (Husername : (username =? "") = false)
    (Hpassword : (password =? "") = false)
    (Hurl : (url =? "") = false)
    (Hnet : network env (token_request env url username password)
            = Responded r)
    (Hok : ok r = true)
    (Hbody : json_body r = Returned (JObj fields))
    (Hfield : own_property fields "access_token" = Some tok) :
  let o := handleLogin env username password (Some url) u in
  let s := {| token := Val tok; isAuthenticated := true |} in
  final o = {| store := s; isLoading := false;
               workingServerUrl := workingServerUrl u |}
  /\ notified (events o) = [s]
  /\ alerts (events o) = []
  /\ navigated (events o) = ["Overview"]
  /\ result o = Returned tt.
Proof.
  cbv zeta.
  destruct (handleLogin_outcome env username password url u
              Husername Hpassword Hurl) as (Hres & _ & Hcase).
  unfold granted in Hcase. rewrite Hnet, Hbody, Hok in Hcase.
  simpl in Hcase. rewrite Hfield in Hcase.
  destruct Hcase as (Hf & Ha & Hn & Hv).
  repeat split; assumption.
Qed.

Lemma login_stores_token_witness :
  let env := env_answering 200
               (JObj [("access_token", JStr "abc123");
                      ("token_type", JStr "bearer")]) in
  let o := handleLogin env "johndoe" "password123" (Some "http://host:8000")
             mountState in
  let s := {| token := Val (JStr "abc123"); isAuthenticated := true |} in
  final o = {| store := s; isLoading := false; workingServerUrl := None |}
  /\ notified (events o) = [s]
  /\ alerts (events o) = []
  /\ navigated (events o) = ["Overview"]
  /\ result o = Returned tt.
Proof.
  apply (login_stores_token
           (env_answering 200
              (JObj [("access_token", JStr "abc123");
                     ("token_type", JStr "bearer")]))
           "johndoe" "password123" "http://host:8000" mountState
           {| status := 200;
              json_body := Returned
                (JObj [("access_token", JStr "abc123");
                       ("token_type", JStr "bearer")]) |}
           [("access_token", JStr "abc123"); ("token_type", JStr "bearer")]
           (JStr "abc123"));
    reflexivity.
Defined.

(** X2: every call of the handler, whatever the inputs and the network,
    returns normally, leaves the endpoint as it was, and has exactly one
    visible outcome: either one alert, with the store untouched and no
    navigation, or the store's [login] followed by the navigation to
    Overview, with no alert. *)
Theorem one_visible_outcome (env : Env) (username password : string)
    (serverUrl : option string) (u : UI) :
  let o := handleLogin env username password serverUrl u in
  result o = Returned tt
  /\ workingServerUrl (final o) = workingServerUrl u
  /\ (((exists a, alerts (events o) = [a])
       /\ navigated (events o) = []
       /\ notified (events o) = []
       /\ store (final o) = store u)
      \/ (alerts (events o) = []
          /\ navigated (events o) = ["Overview"]
          /\ exists v, notified (events o) = [login v (store u)]
                       /\ store (final o) = login v (store u))).
Proof.
  cbv zeta.
  destruct ((username =? "") || (password =? "") || absent serverUrl)
    eqn:Hguard.
  - destruct (handleLogin_guarded env username password serverUrl u Hguard)
      as (Hf & Hr & [He | He]); rewrite Hf, Hr, He;
      repeat split; left; repeat split; eexists; reflexivity.
  - apply orb_false_iff in Hguard as [Hcred Hurl].
    apply orb_false_iff in Hcred as [Hu Hp].
    destruct serverUrl as [url |]; [| discriminate Hurl].
    rewrite absent_Some in Hurl.
    destruct (handleLogin_outcome env username password url u Hu Hp Hurl)
      as (Hr & _ & Hcase).
    destruct (granted env _) as [v |].
    + destruct Hcase as (Hf & Ha & Hn & Hv). rewrite Hf.
      repeat split; [assumption |]. right. repeat split; try assumption.
      exists v. split; [assumption | reflexivity].
    + destruct Hcase as (Hf & (message & Ha) & Hn & Hv). rewrite Hf.
      repeat split; [assumption |]. left.
      split; [now exists ("Login Failed", message) |].
      repeat split; assumption.
Qed.

(** X3: the handler sends a request only when the username, the password
    and the endpoint are all non-empty, and then exactly one: the POST of
    the form body to [<endpoint>/token], with the form content type. *)
Theorem one_token_request (env : Env) (username password : string)
    (serverUrl : option string) (u : UI) :
  requests (events (handleLogin env username password serverUrl u))
  = match serverUrl with
    | Some url =>
        if (username =? "") || (password =? "") || (url =? "") then []
        else [{| req_url := url ++ "/token";
                 req_method := "POST";
                 req_headers :=
                   [("Content-Type", "application/x-www-form-urlencoded");
                    ("Accept", "application/json")];
                 req_body := Some (formString env username password) |}]
    | None => []
    end.
Proof.
  destruct ((username =? "") || (password =? "") || absent serverUrl)
    eqn:Hguard.
  - destruct (handleLogin_guarded env username password serverUrl u Hguard)
      as (_ & _ & [He | He]); rewrite He;
      destruct serverUrl as [url |]; simpl in *;
      try rewrite Hguard; reflexivity.
  - apply orb_false_iff in Hguard as [Hcred Hurl].
    pose proof Hcred as Hcred'.
    apply orb_false_iff in Hcred as [Hu Hp].
    destruct serverUrl as [url |]; [| discriminate Hurl].
    rewrite absent_Some in Hurl. rewrite Hcred', Hurl. simpl.
    destruct (handleLogin_outcome env username password url u Hu Hp Hurl)
      as (_ & Hreq & _).
    exact Hreq.
Qed.

(** X4: the busy flag never stays set: when a guard stops the handler
    [isLoading] is as before, and once the exchange has started it is
    false at the end, whether the exchange succeeded, was refused, could
    not be decoded or got no response. *)
Theorem loading_flag_cleared (env : Env) (username password : string)
    (serverUrl : option string) (u : UI) :
  isLoading (final (handleLogin env username password serverUrl u))
  = if (username =? "") || (password =? "") || absent serverUrl
    then isLoading u else false.
Proof.
  destruct ((username =? "") || (password =? "") || absent serverUrl)
    eqn:Hguard.
  - destruct (handleLogin_guarded env username password serverUrl u Hguard)
      as (Hf & _). now rewrite Hf.
  - apply orb_false_iff in Hguard as [Hcred Hurl].
    apply orb_false_iff in Hcred as [Hu Hp].
    destruct serverUrl as [url |]; [| discriminate Hurl].
    rewrite absent_Some in Hurl.
    destruct (handleLogin_outcome env username password url u Hu Hp Hurl)
      as (_ & _ & Hcase).
    destruct (granted env _); destruct Hcase as (Hf & _); now rewrite Hf.
Qed.

(* ================================================================= *)
(** * Further properties of the store *)

(** X5: for every sequence of [login(t)], with any string [t], the empty
    one included, and [logout()] from the initial state, after every step
    [isAuthenticated] is true if and only if the token is not [null]. *)
Theorem flag_tracks_token_presence (ms : list mutation) (n : nat) :
  let s := run_mutations (firstn n ms) initialState in
  isAuthenticated s = true <-> token s <> Val JNull.
Proof.
  apply (flag_follows_presence (firstn n ms) initialState).
  simpl. split; [discriminate | intros H; now elim H].
Qed.

(** X6: the store keeps nothing of its history: after any sequence of
    mutations from any state, the state is the one the last mutation
    gives from the initial state. *)
Theorem last_mutation_wins (ms : list mutation) (m : mutation)
    (s : AuthState) :
  run_mutations (ms ++ [m]) s = apply_mutation m initialState.
Proof.
  unfold run_mutations. rewrite fold_left_app. simpl.
  now destruct m.
Qed.

(* ================================================================= *)
(** * Further properties of the resolver and of the candidate list *)

Section Probing.

Variable env : Env.

Lemma find_first (before : list string) (url : string)
    (after : list string) :
  existsb (reachable env) before = false ->
  reachable env url = true ->
  find (reachable env) (before ++ url :: after) = Some url.
Proof.
  induction before as [|b before IH]; simpl; intros Hb Hurl.
  - now rewrite Hurl.
  - apply orb_false_iff in Hb as [Hhead Hrest].
    rewrite Hhead. now apply IH.
Qed.

Lemma find_nowhere (urls : list string) :
  existsb (reachable env) urls = false -> find (reachable env) urls = None.
Proof.
  induction urls as [|c rest IH]; simpl; intros H; [reflexivity |].
  apply orb_false_iff in H as [Hc Hrest]. rewrite Hc. now apply IH.
Qed.

(** The loop writes to the console and sends requests; nothing else *)
Lemma probe_loop_quiet (urls : list string) (u : UI) :
  forallb log_or_fetch (events (probe_loop env urls u)) = true.
Proof.
  induction urls as [|url rest IH]; [reflexivity |]. simpl.
  unfold bind, try_catch, fetch, bind, console_log, emit, lift, ret, throw,
    setWorkingServerUrl, modify.
  destruct (network env (ping_request url)) as [e | r].
  - destruct (probe_loop env rest u) as [f evs res]; simpl in *. exact IH.
  - destruct (ok r).
    + destruct (json_body r) as [data | e]; [reflexivity |].
      destruct (probe_loop env rest u) as [f evs res]; simpl in *. exact IH.
    + destruct (probe_loop env rest u) as [f evs res]; simpl in *. exact IH.
Qed.

Lemma quiet_events (evs : list event) :
  forallb log_or_fetch evs = true ->
  alerts evs = [] /\ notified evs = [] /\ navigated evs = [].
Proof.
  induction evs as [|e evs IH]; simpl; intros H; [repeat split |].
  apply andb_true_iff in H as [He Hevs].
  destruct e; simpl in He; try discriminate He; now apply IH.
Qed.

(** The whole of a resolution, in terms of the first reachable candidate *)
Lemma resolve_outcome (urls : list string) (u : UI) :
  let o := resolve env urls u in
  result o = Returned tt
  /\ final o = match find (reachable env) urls with
               | Some url => {| store := store u; isLoading := isLoading u;
                                workingServerUrl := Some url |}
               | None => u
               end
  /\ forallb log_or_fetch (events o) = true
  /\ exists probed rest,
       urls = (probed ++ rest)%list
       /\ fetched (events o) = map (fun c => c ++ "/ping") probed.
Proof.
  cbv zeta. pose proof (probe_loop_quiet urls u) as Hq.
  destruct (existsb (reachable env) urls) eqn:Hex.
  - destruct (first_reachable_split env urls Hex)
      as (before & url & after & -> & Hb & Hurl).
    rewrite (find_first before url after Hb Hurl).
    destruct (probe_loop_first env before url after u Hb Hurl)
      as (Hf & Hr & He).
    unfold resolve, bind, console_log, emit, ret.
    destruct (probe_loop env (before ++ url :: after) u) as [f evs res].
    simpl in Hf, Hr, He, Hq. subst f res. simpl.
    rewrite app_nil_r. repeat split; try assumption.
    exists (before ++ [url])%list, after.
    rewrite <- app_assoc. split; [reflexivity | exact He].
  - rewrite (find_nowhere urls Hex).
    destruct (probe_loop_none env urls u Hex) as (Hf & Hr & He).
    unfold resolve, bind, console_log, emit, ret.
    destruct (probe_loop env urls u) as [f evs res].
    simpl in Hf, Hr, He, Hq. subst f res. simpl.
    rewrite fetched_app, He, forallb_app, Hq. simpl. rewrite !app_nil_r.
    repeat split. exists urls, []. now rewrite app_nil_r.
Qed.

Lemma or_default_nonempty (v : option string) (fallback : string) :
  (fallback =? "") = false -> (or_default v fallback =? "") = false.
Proof.
  intros H. destruct v as [s |]; simpl; [| exact H].
  destruct (s =? "") eqn:Hs; assumption.
Qed.

Lemma pushed_urls_nonempty (url : string) :
  In url (pushed_urls env) -> (url =? "") = false.
Proof.
  unfold pushed_urls.
  destruct (is_android (os env)); simpl;
    intros H; repeat destruct H as [<- | H]; try contradiction;
    now apply or_default_nonempty.
Qed.

Lemma candidates_nonempty (url : string) :
  In url (getServerUrls env) -> (url =? "") = false.
Proof.
  unfold getServerUrls. rewrite new_Set_dedup_first, dedup_first_In.
  apply pushed_urls_nonempty.
Qed.

Lemma dedup_first_length (l : list string) :
  (length (dedup_first l) <= length l)%nat.
Proof.
  induction l as [|x l IH]; simpl; [lia |].
  pose proof (filter_length_le (fun y => negb (String.eqb y x))
                (dedup_first l)).
  lia.
Qed.

Lemma candidates_count :
  (1 <= length (getServerUrls env)
        <= if is_android (os env) then 3 else 2)%nat.
Proof.
  unfold getServerUrls. rewrite new_Set_dedup_first.
  pose proof (dedup_first_length (pushed_urls env)) as Hle.
  unfold pushed_urls in *.
  destruct (is_android (os env)); simpl in *; lia.
Qed.

End Probing.

Lemma length_append (a b : string) :
  String.length (a ++ b) = (String.length a + String.length b)%nat.
Proof. induction a as [|c a IH]; simpl; [reflexivity | now rewrite IH]. Qed.

(** Two URLs with one suffix are equal when the results are *)
Lemma append_cancel_r (suffix a b : string) :
  a ++ suffix = b ++ suffix -> a = b.
Proof.
  revert b. induction a as [|c a IH]; intros [|d b] H; simpl in H.
  - reflexivity.
  - apply (f_equal String.length) in H. simpl in H.
    rewrite length_append in H. lia.
  - apply (f_equal String.length) in H. simpl in H.
    rewrite length_append in H. lia.
  - injection H as -> H. f_equal. now apply IH.
Qed.

Lemma NoDup_map_suffix (suffix : string) (l : list string) :
  NoDup l -> NoDup (map (fun c => c ++ suffix) l).
Proof.
  induction 1 as [|x l Hx Hl IH]; simpl; constructor; [| exact IH].
  rewrite in_map_iff. intros (y & Heq & Hy).
  apply append_cancel_r in Heq. now subst.
Qed.

Lemma distinct_dedup_first (l : list string) :
  distinct l = true -> dedup_first l = l.
Proof.
  induction l as [|x l IH]; simpl; intros H; [reflexivity |].
  apply andb_true_iff in H as [Hx Hl]. rewrite (IH Hl). f_equal.
  apply negb_true_iff in Hx. clear IH Hl.
  induction l as [|y l IH]; simpl in *; [reflexivity |].
  apply orb_false_iff in Hx as [Hxy Hrest].
  rewrite String.eqb_sym, Hxy. simpl. f_equal. now apply IH.
Qed.

(** X7: a resolution of any candidate list, from any state, returns
    normally, touches neither the store nor the busy flag, shows no alert
    and navigates nowhere; the endpoint becomes the first reachable
    candidate of the list, and stays what it was when there is none. *)
Theorem resolver_touches_only_endpoint (env : Env) (urls : list string)
    (u : UI) :
  let o := resolve env urls u in
  result o = Returned tt
  /\ store (final o) = store u
  /\ isLoading (final o) = isLoading u
  /\ workingServerUrl (final o)
     = match find (reachable env) urls with
       | Some url => Some url
       | None => workingServerUrl u
       end
  /\ alerts (events o) = []
  /\ notified (events o) = []
  /\ navigated (events o) = [].
Proof.
  cbv zeta.
  destruct (resolve_outcome env urls u) as (Hr & Hf & Hq & _).
  destruct (quiet_events _ Hq) as (Ha & Hn & Hv).
  rewrite Hf. destruct (find (reachable env) urls);
    repeat split; assumption.
Qed.

(** X8: [findWorkingServer] pings the candidates in the order of the
    list, stopping where it stops: the URLs fetched are the [/ping] of an
    initial part of [getServerUrls]; no URL is fetched twice, and there
    are at most three fetches, two off Android. *)
Theorem findWorkingServer_pings (env : Env) (u : UI) :
  let pings := fetched (events (findWorkingServer env u)) in
  (exists probed rest,
     getServerUrls env = (probed ++ rest)%list
     /\ pings = map (fun c => c ++ "/ping") probed)
  /\ NoDup pings
  /\ (length pings <= if is_android (os env) then 3 else 2)%nat.
Proof.
  cbv zeta. unfold findWorkingServer.
  destruct (resolve_outcome env (getServerUrls env) u)
    as (_ & _ & _ & probed & rest & Hsplit & Hfetched).
  assert (Hnodup : NoDup (getServerUrls env)).
  { unfold getServerUrls. rewrite new_Set_dedup_first.
    apply dedup_first_NoDup. }
  pose proof (candidates_count env) as Hcount.
  rewrite Hfetched. rewrite Hsplit in Hnodup, Hcount.
  rewrite length_app in Hcount.
  split; [exists probed, rest; split; [assumption | reflexivity] |].
  split.
  - apply NoDup_map_suffix. now apply NoDup_app_remove_r in Hnodup.
  - rewrite length_map. destruct (is_android (os env)); lia.
Qed.

(** X9: the candidate list has at least one entry and at most three (two
    off Android), and no candidate is the empty string, also when an
    environment value is set to the empty string: such a value is
    replaced by the default. *)
Theorem candidates_are_urls (env : Env) :
  forallb (fun url => negb (url =? "")) (getServerUrls env) = true
  /\ (1 <= length (getServerUrls env)
           <= if is_android (os env) then 3 else 2)%nat.
Proof.
  split; [| apply candidates_count].
  apply forallb_forall. intros url Hin.
  now rewrite (candidates_nonempty env url Hin).
Qed.

(** X10: deduplication drops an entry only when two sources coincide: if
    the addresses pushed are pairwise different, the candidate list is
    exactly those addresses, in the order they were pushed. *)
Theorem distinct_sources_all_kept (env : Env)
    (H : distinct (pushed_urls env) = true) :
  getServerUrls env = pushed_urls env.
Proof.
  unfold getServerUrls. rewrite new_Set_dedup_first.
  now apply distinct_dedup_first.
Qed.

Lemma distinct_sources_all_kept_witness :
  distinct (pushed_urls env_down) = true
  /\ getServerUrls env_down = pushed_urls env_down.
Proof.
  split; [reflexivity |].
  apply (distinct_sources_all_kept env_down). reflexivity.
Defined.

(** X11: an endpoint that [findWorkingServer] stored after the mount is
    one of the candidates, answered its ping, and is not the empty
    string; the login button is then enabled, and a login with non-empty
    credentials sends its one request to [<that endpoint>/token]. *)
Theorem resolved_endpoint_is_usable (env : Env)
    (username password url : string)
    (Husername : (username =? "") = false)
    (Hpassword : (password =? "") = false)
    (Hresolved : workingServerUrl (final (findWorkingServer env mountState))
                 = Some url) :
  let u := final (findWorkingServer env mountState) in
  In url (getServerUrls env)
  /\ reachable env url = true
  /\ (url =? "") = false
  /\ loginDisabled u = false
  /\ requests (events (pressLogin env username password u))
     = [token_request env url username password].
Proof.
  cbv zeta. unfold findWorkingServer in *.
  destruct (resolve_outcome env (getServerUrls env) mountState)
    as (_ & Hf & _).
  rewrite Hf in *.
  destruct (find (reachable env) (getServerUrls env)) as [found |] eqn:Hfind;
    simpl in Hresolved; [| discriminate Hresolved].
  injection Hresolved as ->.
  destruct (find_some _ _ Hfind) as (Hin & Hreach).
  pose proof (candidates_nonempty env url Hin) as Hurl.
  split; [exact Hin |]. split; [exact Hreach |]. split; [exact Hurl |].
  split.
  - unfold loginDisabled; simpl. exact Hurl.
  - unfold pressLogin, loginDisabled; simpl. rewrite Hurl.
    apply (handleLogin_outcome env username password url _
             Husername Hpassword Hurl).
Qed.

Lemma resolved_endpoint_is_usable_witness :
  let u := final (findWorkingServer env_local_b mountState) in
  workingServerUrl u = Some "http://b"
  /\ In "http://b" (getServerUrls env_local_b)
  /\ reachable env_local_b "http://b" = true
  /\ ("http://b" =? "") = false
  /\ loginDisabled u = false
  /\ requests (events (pressLogin env_local_b "johndoe" "password123" u))
     = [token_request env_local_b "http://b" "johndoe" "password123"].
Proof.
  cbv zeta. split; [reflexivity |].
  apply (resolved_endpoint_is_usable env_local_b "johndoe" "password123"
           "http://b"); reflexivity.
Defined.

(* ================================================================= *)
(** * Further properties of the form body *)

Section Alphabet.

Lemma string_forall_app (p : ascii -> bool) (a b : string) :
  string_forall p (a ++ b) = string_forall p a && string_forall p b.
Proof.
  induction a as [|c a IH]; simpl; [reflexivity |].
  now rewrite IH, andb_assoc.
Qed.

Lemma encode_byte_plain (impl : Form.serializer) (c : ascii) :
  string_forall plain (Form.encode_byte impl c) = true.
Proof.
  destruct impl; destruct c as [[] [] [] [] [] [] [] []]; reflexivity.
Qed.

Lemma encode_byte_alphanumeric (impl : Form.serializer) (c : ascii) :
  Form.alphanumeric c = true -> Form.encode_byte impl c = String c "".
Proof.
  destruct impl; destruct c as [[] [] [] [] [] [] [] []];
    intros H; try reflexivity; discriminate H.
Qed.

Lemma encode_alphanumeric (impl : Form.serializer) (s : string) :
  string_forall Form.alphanumeric s = true -> Form.encode impl s = s.
Proof.
  induction s as [|c s IH]; simpl; intros H; [reflexivity |].
  apply andb_true_iff in H as [Hc Hs].
  now rewrite (encode_byte_alphanumeric impl c Hc), (IH Hs).
Qed.

End Alphabet.

(** X12: whatever bytes a credential holds, its serialized form is made
    only of letters, digits, the marks [-_.!~*'()], [%] and [+]: it holds
    no [&], no [=], no space and no byte outside ASCII, under either
    serializer. *)
Theorem encoded_component_alphabet (impl : Form.serializer) (s : string) :
  string_forall plain (Form.encode impl s) = true.
Proof.
  induction s as [|c s IH]; simpl; [reflexivity |].
  now rewrite string_forall_app, encode_byte_plain, IH.
Qed.

(** X13: credentials made of letters and digits only are not changed by
    the serializer: the body that is logged and sent holds them as they
    were typed. *)
Theorem alphanumeric_credentials_verbatim (env : Env)
    (username password : string)
    (Husername : string_forall Form.alphanumeric username = true)
    (Hpassword : string_forall Form.alphanumeric password = true) :
  formString env username password
  = "username=" ++ username ++ "&password=" ++ password.
Proof.
  rewrite formString_text.
  now rewrite (encode_alphanumeric _ username Husername),
              (encode_alphanumeric _ password Hpassword).
Qed.

Lemma alphanumeric_credentials_verbatim_witness :
  string_forall Form.alphanumeric "johndoe" = true
  /\ string_forall Form.alphanumeric "password123" = true
  /\ formString env_down "johndoe" "password123"
     = "username=" ++ "johndoe" ++ "&password=" ++ "password123".
Proof.
  split; [reflexivity |]. split; [reflexivity |].
  apply (alphanumeric_credentials_verbatim env_down
           "johndoe" "password123"); reflexivity.
Defined.

(* ================================================================= *)
(** * Further properties of the screens together *)

Section Screens.

Variable env : Env.

Lemma handleLogin_keeps_endpoint (username password : string)
    (serverUrl : option string) (u : UI) :
  workingServerUrl (final (handleLogin env username password serverUrl u))
  = workingServerUrl u
  /\ (navigated (events (handleLogin env username password serverUrl u)) = []
      \/ navigated (events (handleLogin env username password serverUrl u))
         = ["Overview"])
  /\ forallb (fun a => negb (fst a =? "Server Connection Error"))
       (alerts (events (handleLogin env username password serverUrl u)))
     = negb (negb ((username =? "") || (password =? ""))
             && absent serverUrl).
Proof.
  destruct ((username =? "") || (password =? "")) eqn:Hcred.
  - unfold handleLogin. rewrite Hcred. simpl. repeat split. now left.
  - destruct (absent serverUrl) eqn:Habs.
    + unfold handleLogin. rewrite Hcred.
      destruct serverUrl as [[|c url] |]; simpl in Habs;
        try discriminate Habs; simpl; repeat split; now left.
    + apply orb_false_iff in Hcred as [Hu Hp].
      destruct serverUrl as [url |]; [| discriminate Habs].
      rewrite absent_Some in Habs.
      destruct (handleLogin_outcome env username password url u Hu Hp Habs)
        as (_ & _ & Hcase).
      destruct (granted env _).
      * destruct Hcase as (Hf & Ha & _ & Hv). rewrite Hf, Ha, Hv.
        repeat split. now right.
      * destruct Hcase as (Hf & (message & Ha) & _ & Hv).
        rewrite Hf, Ha, Hv. repeat split. now left.
Qed.

Lemma find_existsb (urls : list string) :
  existsb (reachable env) urls
  = match find (reachable env) urls with Some _ => true | None => false end.
Proof.
  induction urls as [|c rest IH]; simpl; [reflexivity |].
  destruct (reachable env c); [reflexivity | exact IH].
Qed.

End Screens.

(** X14: whatever a login attempt did before, [handleLogout] leaves the
    store in its initial state and keeps the endpoint that was resolved;
    it tells the subscribers, navigates to Login, and sends nothing to
    the server. *)
Theorem logout_after_any_attempt (env : Env) (username password : string)
    (serverUrl : option string) (u : UI) :
  let attempted := final (handleLogin env username password serverUrl u) in
  let o := handleLogout attempted in
  store (final o) = initialState
  /\ workingServerUrl (final o) = workingServerUrl u
  /\ events o = [Notify initialState; Navigate "Login"]
  /\ requests (events o) = [].
Proof.
  cbv zeta.
  destruct (handleLogin_keeps_endpoint env username password serverUrl u)
    as (Hkeep & _).
  repeat split. exact Hkeep.
Qed.

(** X15: the navigator starts on Login whatever the store holds, its
    initial route is one of its screens, and every screen the two
    handlers navigate to is registered in it. *)
Theorem navigation_targets_registered (env : Env)
    (username password : string) (serverUrl : option string) (u : UI)
    (s : AuthState) :
  initialRouteName (RootStack s) = "Login"
  /\ mem (initialRouteName (RootStack s)) (screens (RootStack s)) = true
  /\ forallb (fun screen => mem screen (screens (RootStack s)))
       (navigated (events (handleLogin env username password serverUrl u)))
     = true
  /\ forallb (fun screen => mem screen (screens (RootStack s)))
       (navigated (events (handleLogout u)))
     = true.
Proof.
  destruct (handleLogin_keeps_endpoint env username password serverUrl u)
    as (_ & [Hnav | Hnav] & _); rewrite Hnav; repeat split.
Qed.

(** X16: a press on the login button never ends in the "Server Connection
    Error" alert: a disabled button does nothing at all, and an enabled
    one runs the handler with an endpoint, after which the busy flag is
    off. *)
Theorem press_never_reports_missing_server (env : Env)
    (username password : string) (u : UI) :
  let o := pressLogin env username password u in
  forallb (fun a => negb (fst a =? "Server Connection Error"))
    (alerts (events o)) = true
  /\ if loginDisabled u
     then events o = [] /\ final o = u
     else isLoading (final o) = false
          /\ workingServerUrl (final o) = workingServerUrl u.
Proof.
  cbv zeta. unfold pressLogin.
  destruct (loginDisabled u) eqn:Hdis.
  - repeat split.
  - unfold loginDisabled in Hdis.
    apply orb_false_iff in Hdis as [Hload Habs].
    destruct (handleLogin_keeps_endpoint env username password
                (workingServerUrl u) u) as (Hkeep & _ & Halert).
    rewrite Halert, Habs, andb_false_r. simpl.
    split; [reflexivity |]. split; [| exact Hkeep].
    destruct ((username =? "") || (password =? "")) eqn:Hcred.
    + destruct (handleLogin_guarded env username password
                  (workingServerUrl u) u) as (Hf & _).
      { now rewrite Hcred. }
      now rewrite Hf.
    + apply orb_false_iff in Hcred as [Hu Hp].
      destruct (workingServerUrl u) as [url |] eqn:Hw;
        [| discriminate Habs].
      rewrite absent_Some in Habs.
      destruct (handleLogin_outcome env username password url u Hu Hp Habs)
        as (_ & _ & Hcase).
      destruct (granted env _); destruct Hcase as (Hf & _); now rewrite Hf.
Qed.

(** X17: what the login screen shows once the resolution that runs at
    mount is over: with a reachable candidate the banner is gone and the
    button is enabled and reads "Login"; with none the banner stays and
    the button is disabled and reads "Waiting for server...". *)
Theorem screen_after_resolution (env : Env) (showPassword : bool) :
  render (final (findWorkingServer env mountState)) showPassword
  = if existsb (reachable env) (getServerUrls env)
    then {| searching_banner := false;
            secureTextEntry := negb showPassword;
            login_disabled := false;
            login_content := Label "Login" |}
    else {| searching_banner := true;
            secureTextEntry := negb showPassword;
            login_disabled := true;
            login_content := Label "Waiting for server..." |}.
Proof.
  unfold findWorkingServer.
  destruct (resolve_outcome env (getServerUrls env) mountState)
    as (_ & Hf & _).
  rewrite Hf, find_existsb.
  destruct (find (reachable env) (getServerUrls env)) as [url |] eqn:Hfind;
    [| reflexivity].
  destruct (find_some _ _ Hfind) as (Hin & _).
  pose proof (candidates_nonempty env url Hin) as Hurl.
  unfold render, loginDisabled; simpl. now rewrite Hurl.
Qed.

(** X18: when no candidate answers at mount, nothing on the login screen
    reaches the server afterwards: every press on the login button, with
    any credentials, does nothing, and the state stays the mount state. *)
Theorem no_server_no_login (env : Env) (username password : string)
    (H : existsb (reachable env) (getServerUrls env) = false) :
  let u := final (findWorkingServer env mountState) in
  u = mountState
  /\ events (pressLogin env username password u) = []
  /\ final (pressLogin env username password u) = mountState.
Proof.
  cbv zeta. unfold findWorkingServer.
  destruct (resolve_outcome env (getServerUrls env) mountState)
    as (_ & Hf & _).
  rewrite Hf, (find_nowhere env _ H). repeat split.
Qed.

Lemma no_server_no_login_witness :
  existsb (reachable env_down) (getServerUrls env_down) = false
  /\ (let u := final (findWorkingServer env_down mountState) in
      u = mountState
      /\ events (pressLogin env_down "johndoe" "password123" u) = []
      /\ final (pressLogin env_down "johndoe" "password123" u) = mountState).
Proof.
  split; [reflexivity |].
  apply (no_server_no_login env_down "johndoe" "password123"). reflexivity.
Defined.

(** X19: the password input starts masked, and after [n] presses on the
    eye it is masked exactly when [n] is even. *)
Theorem password_masked_iff_even (n : nat) (u : UI) :
  secureTextEntry (render u (Nat.iter n togglePasswordVisibility false))
  = Nat.even n.
Proof.
  simpl. induction n as [|n IH]; [reflexivity |].
  rewrite Nat.even_succ, <- Nat.negb_even, <- IH. simpl.
  unfold togglePasswordVisibility at 1. now rewrite negb_involutive.
Qed.

(** A [detail] object with an own [toString] member cannot be converted:
    the construction of the [Error] throws, and the engine's text is shown *)
Example detail_with_own_toString :
  alerts (events (handleLogin
                    (env_answering 400
                       (JObj [("detail", JObj [("toString", JNum "1")])]))
                    "johndoe" "password123" (Some "http://host:8000")
                    mountState))
  = [("Login Failed", "Cannot convert object to primitive value")].
Proof. reflexivity. Qed.
